(** * A word-presence Naive Bayes spam filter (NaiveBayes.py)

    Shallow embedding of [SpamFilter] and [split_train_test].

    Conventions of the embedding.
    - A Python [str] is a sequence of Unicode code points: [list N].
    - A Python [int] is a [Z].
    - A Python [float] is taken as an exact number: the values the code
      builds from literals and integers with [+], [-] and [/] are rationals
      ([Q]); [math.log] takes a rational to a real ([R]) and the log-space
      accumulators, [math.exp] and the final quotient live in [R].  Rounding,
      overflow and underflow of binary64 are not described.
    - A raised exception ([ZeroDivisionError], [ValueError]) is [None].
    - A [dict] is a [gmap] and a [set] is a [gset]: the iteration order of a
      Python set is unspecified, hence so is the insertion order of the
      dictionaries the code fills from one. *)

From Stdlib Require Import ZArith QArith Qreals Reals Lqa Lra Lia String Ascii.
From stdpp Require Import gmap list fin_maps fin_sets.

Local Open Scope Z_scope.

(** ** Strings *)

(** Code points of a literal, for the examples (one code point per byte of
    the literal, which is exact for ASCII text). *)
Fixpoint str (s : String.string) : list N :=
  match s with
  | String.EmptyString => []
  | String.String a s' => Ascii.N_of_ascii a :: str s'
  end.
Arguments str _%_string.

Module Tokenizer.

(** The character class [[a-z0-9']] compiled with [re.IGNORECASE] on a [str]
    pattern: the 52 ASCII letters, the ten digits, the apostrophe, and the four
    non-ASCII letters whose case mappings meet an ASCII letter (U+0130, U+0131,
    U+017F, U+212A). *)
Definition is_ascii_upper (c : N) : bool := ((65 <=? c) && (c <=? 90))%N.
Definition is_ascii_lower (c : N) : bool := ((97 <=? c) && (c <=? 122))%N.
Definition is_ascii_letter (c : N) : bool := is_ascii_upper c || is_ascii_lower c.
Definition is_ascii_digit (c : N) : bool := ((48 <=? c) && (c <=? 57))%N.
Definition apostrophe : N := 39%N.
Definition dash : N := 45%N.

Definition ignorecase_extra (c : N) : bool :=
  ((c =? 304) || (c =? 305) || (c =? 383) || (c =? 8490))%N.

Definition word_char (c : N) : bool :=
  is_ascii_letter c || ignorecase_extra c || is_ascii_digit c || (c =? apostrophe)%N.

(** [re.findall] of a pattern [[cls]+]: the maximal runs of characters of the
    class, left to right.  [run] is the run being read, most recent character
    first. *)
Definition emit (run : list N) : list (list N) :=
  match run with
  | [] => []
  | _ :: _ => [reverse run]
  end.

Fixpoint findall_run (cls : N → bool) (run : list N) (s : list N) : list (list N) :=
  match s with
  | [] => emit run
  | c :: s' =>
      if cls c then findall_run cls (c :: run) s'
      else emit run ++ findall_run cls [] s'
  end.

Definition findall (cls : N → bool) (s : list N) : list (list N) :=
  findall_run cls [] s.

(** [str.lower] on the characters a word can hold: an ASCII capital goes to its
    small letter, U+0130 to "i" followed by U+0307, U+212A to "k"; the other
    characters of the class are their own lower case. *)
Definition lower_char (c : N) : list N :=
  if is_ascii_upper c then [(c + 32)%N]
  else if (c =? 304)%N then [105%N; 775%N]
  else if (c =? 8490)%N then [107%N]
  else [c].

Definition lower (w : list N) : list N := w ≫= lower_char.

(** [_tokenize_words] *)
Definition _tokenize_words (message : list N) : gset (list N) :=
  list_to_set (lower <$> findall word_char message).

(** The tokenizer as the specification words it: runs of ASCII letters,
    digits, apostrophes and dashes, lower-cased. *)
Definition spec_char (c : N) : bool :=
  is_ascii_letter c || is_ascii_digit c || (c =? apostrophe)%N || (c =? dash)%N.

Definition ascii_to_lower (c : N) : N :=
  if is_ascii_upper c then (c + 32)%N else c.

Definition spec_lower_char (c : N) : N := ascii_to_lower c.

Definition spec_lower (w : list N) : list N := spec_lower_char <$> w.

Definition tokenize_spec (message : list N) : gset (list N) :=
  list_to_set (spec_lower <$> findall spec_char message).

(** Two texts that differ in the case of ASCII letters only. *)
Definition case_variant_char (c d : N) : Prop :=
  c = d ∨ (is_ascii_letter c = true ∧ is_ascii_letter d = true
           ∧ ascii_to_lower c = ascii_to_lower d).

Definition case_variant (text1 text2 : list N) : Prop :=
  Forall2 case_variant_char text1 text2.

End Tokenizer.

Import Tokenizer.

(** ** The model *)

(** [SpamFilter]: the two class totals, the message counters
    ([_words_count], word to [spam tally, non-spam tally]) and the word
    probabilities ([_words_probabilities]). *)
Record SpamFilter := mkSpamFilter {
  _number_of_spam_messages : Z;
  _number_of_non_spam_messages : Z;
  _words_count : gmap (list N) (Z * Z);
  _words_probabilities : gmap (list N) (Q * Q);
}.

(** [SpamFilter.__init__] *)
Definition init : SpamFilter :=
  {| _number_of_spam_messages := 0;
     _number_of_non_spam_messages := 0;
     _words_count := ∅;
     _words_probabilities := ∅ |}.

(** [x / d] for a float [x] and an int [d]: [ZeroDivisionError] when [d] is 0. *)
Definition float_div_int (x : Q) (d : Z) : option Q :=
  if decide (d = 0) then None else Some (x / inject_Z d)%Q.

(** [0.5 + n] for an int [n]. *)
Definition half_plus (n : Z) : Q := ((1 # 2) + inject_Z n)%Q.

Module Training.

(** [self._words_count[word][0] += 1] (spam) or [...[1] += 1] (non-spam): an
    absent word is first given the default [[0, 0]]. *)
Definition count_word (is_spam : bool) (word : list N)
    (wc : gmap (list N) (Z * Z)) : gmap (list N) (Z * Z) :=
  let '(spam_count, non_spam_count) := default (0, 0) (wc !! word) in
  if is_spam then <[word := (spam_count + 1, non_spam_count)]> wc
  else <[word := (spam_count, non_spam_count + 1)]> wc.

(** One turn of the loop of [_add_messages]. *)
Definition add_message (s : SpamFilter) (m : bool * list N) : SpamFilter :=
  let '(is_spam, message) := m in
  let words := _tokenize_words message in
  {| _number_of_spam_messages :=
       if is_spam then _number_of_spam_messages s + 1
       else _number_of_spam_messages s;
     _number_of_non_spam_messages :=
       if is_spam then _number_of_non_spam_messages s
       else _number_of_non_spam_messages s + 1;
     _words_count := set_fold (count_word is_spam) (_words_count s) words;
     _words_probabilities := _words_probabilities s |}.

(** The loop of [_add_messages], before the probabilities are refreshed. *)
Definition fold_messages (s : SpamFilter) (messages : list (bool * list N)) : SpamFilter :=
  foldl add_message s messages.

(** One turn of the loop of [_recalculate_probabilities]. *)
Definition recalculate_word (ns nn : Z) (word : list N) (c : Z * Z)
    (acc : option (gmap (list N) (Q * Q))) : option (gmap (list N) (Q * Q)) :=
  wp ← acc;
  p_spam ← float_div_int (half_plus c.1) (1 + ns);
  p_non_spam ← float_div_int (half_plus c.2) (1 + nn);
  Some (<[word := (p_spam, p_non_spam)]> wp).

(** [_recalculate_probabilities] *)
Definition _recalculate_probabilities (s : SpamFilter) : option SpamFilter :=
  wp ← map_fold
         (recalculate_word (_number_of_spam_messages s) (_number_of_non_spam_messages s))
         (Some (_words_probabilities s)) (_words_count s);
  Some {| _number_of_spam_messages := _number_of_spam_messages s;
          _number_of_non_spam_messages := _number_of_non_spam_messages s;
          _words_count := _words_count s;
          _words_probabilities := wp |}.

(** [_add_messages] *)
Definition _add_messages (s : SpamFilter) (messages : list (bool * list N)) : option SpamFilter :=
  _recalculate_probabilities (fold_messages s messages).

(** [train] *)
Definition train (s : SpamFilter) (messages : list (bool * list N)) : option SpamFilter :=
  _add_messages s messages.

(** The models a program can hold: a new one, and what [train] returns. *)
Inductive reachable : SpamFilter → Prop :=
  | reachable_init : reachable init
  | reachable_train s messages s' :
      reachable s → train s messages = Some s' → reachable s'.

(** The smoothed estimates of section 4.2 of the specification. *)
Definition smoothed (ns nn : Z) (c : Z * Z) : Q * Q :=
  ((half_plus c.1 / inject_Z (1 + ns))%Q, (half_plus c.2 / inject_Z (1 + nn))%Q).

(** The tally of a word after a message of the given class counted it. *)
Definition bump (is_spam : bool) (c : Z * Z) : Z * Z :=
  if is_spam then (c.1 + 1, c.2) else (c.1, c.2 + 1).

(** Neither class total is negative. *)
Definition totals_nonneg (s : SpamFilter) : Prop :=
  0 ≤ _number_of_spam_messages s ∧ 0 ≤ _number_of_non_spam_messages s.

(** No tally exceeds the total of its class. *)
Definition counts_bounded (s : SpamFilter) : Prop :=
  ∀ w sc nc, _words_count s !! w = Some (sc, nc) →
    0 ≤ sc ≤ _number_of_spam_messages s ∧ 0 ≤ nc ≤ _number_of_non_spam_messages s.

(** The stored probabilities are the smoothed estimates of the counters. *)
Definition probabilities_current (s : SpamFilter) : Prop :=
  _words_probabilities s =
    smoothed (_number_of_spam_messages s) (_number_of_non_spam_messages s)
      <$> _words_count s.

End Training.

Import Training.

(** ** Inference *)

Module Inference.

(** [math.log]: [ValueError] unless the argument is positive. *)
Definition math_log (x : Q) : option R :=
  if Qlt_le_dec 0 x then Some (ln (Q2R x)) else None.

(** [math.exp], exact: the underflow of binary64 to 0.0, which makes the last
    division of [probability_spam] raise or its result be exactly 0.0 or 1.0,
    and the [OverflowError] of large arguments are not described. *)
Definition math_exp (x : R) : R := exp x.

(** [x / y] on floats: [ZeroDivisionError] when [y] is 0. *)
Definition float_div (x y : R) : option R :=
  if Req_dec_T y 0 then None else Some (x / y)%R.

(** One turn of the loop of [probability_spam]; the accumulator is the pair
    [(spam_probability, non_spam_probability)]. *)
Definition score_word (words_in_message : gset (list N)) (word : list N)
    (p : Q * Q) (acc : option (R * R)) : option (R * R) :=
  '(spam_probability, non_spam_probability) ← acc;
  let '(word_spam_prob, word_non_spam_prob) := p in
  if decide (word ∈ words_in_message) then
    a ← math_log word_spam_prob;
    b ← math_log word_non_spam_prob;
    Some ((spam_probability + a)%R, (non_spam_probability + b)%R)
  else
    a ← math_log (1 - word_spam_prob)%Q;
    b ← math_log (1 - word_non_spam_prob)%Q;
    Some ((spam_probability + a)%R, (non_spam_probability + b)%R).

(** [probability_spam] *)
Definition probability_spam (s : SpamFilter) (message : list N) : option R :=
  let ns := _number_of_spam_messages s in
  let nn := _number_of_non_spam_messages s in
  q_spam ← float_div_int (half_plus ns) (1 + ns + nn);
  spam_probability ← math_log q_spam;
  q_non_spam ← float_div_int (half_plus nn) (1 + ns + nn);
  non_spam_probability ← math_log q_non_spam;
  let words_in_message := _tokenize_words message in
  acc ← map_fold (score_word words_in_message)
          (Some (spam_probability, non_spam_probability))
          (_words_probabilities s);
  float_div (math_exp acc.1) (math_exp acc.1 + math_exp acc.2)%R.

(** *** The classifier as section 4.3 of the specification words it *)

Definition log_prior_spam (s : SpamFilter) : R :=
  ln (Q2R (half_plus (_number_of_spam_messages s)
           / inject_Z (1 + _number_of_spam_messages s + _number_of_non_spam_messages s))).

Definition log_prior_non_spam (s : SpamFilter) : R :=
  ln (Q2R (half_plus (_number_of_non_spam_messages s)
           / inject_Z (1 + _number_of_spam_messages s + _number_of_non_spam_messages s))).

(** What one token of the vocabulary adds to the accumulator of a class, given
    the probability [p] of the token in that class. *)
Definition evidence (present : bool) (p : Q) : R :=
  if present then ln (Q2R p) else ln (Q2R (1 - p)).

(** The evidence of an entry [(word, (p_spam, p_non_spam))] of the mapping
    for the spam and for the non-spam accumulator. *)
Definition spam_evidence (words : gset (list N)) (e : list N * (Q * Q)) : R :=
  evidence (bool_decide (e.1 ∈ words)) e.2.1.

Definition non_spam_evidence (words : gset (list N)) (e : list N * (Q * Q)) : R :=
  evidence (bool_decide (e.1 ∈ words)) e.2.2.

Definition sum_R (l : list R) : R := foldr Rplus 0%R l.

Definition spam_acc (s : SpamFilter) (message : list N) : R :=
  (log_prior_spam s
   + sum_R (spam_evidence (_tokenize_words message)
            <$> map_to_list (_words_probabilities s)))%R.

Definition non_spam_acc (s : SpamFilter) (message : list N) : R :=
  (log_prior_non_spam s
   + sum_R (non_spam_evidence (_tokenize_words message)
            <$> map_to_list (_words_probabilities s)))%R.

Definition classify_spec (s : SpamFilter) (message : list N) : R :=
  (exp (spam_acc s message)
   / (exp (spam_acc s message) + exp (non_spam_acc s message)))%R.

(** An entry whose two probabilities are strictly between 0 and 1. *)
Definition strictly_between (e : list N * (Q * Q)) : Prop :=
  ((0 < e.2.1)%Q ∧ (e.2.1 < 1)%Q) ∧ ((0 < e.2.2)%Q ∧ (e.2.2 < 1)%Q).

End Inference.

Import Inference.

(** ** The train/test split *)

Module Split.

(** [int(x)] of a float: truncation toward zero. *)
Definition int_of_float (x : Q) : Z := Z.quot (Qnum x) (Z.pos (Qden x)).

(** [0.99 > test_size > 0.1] *)
Definition test_size_ok (test_size : Q) : bool :=
  (if Qlt_le_dec test_size (99 # 100) then true else false)
  && (if Qlt_le_dec (1 # 10) test_size then true else false).

Section WithRandom.

(** The rows are of any type; the random source is a generator state [G] and
    [randint], one call of [random.randint(1, 100)]: the number drawn and the
    next state. *)
Context {A G : Type} (randint : G → Z * G).

(** The lists the function holds: its argument and the two it builds. *)
Record locals := mkLocals {
  data : list A;
  train_data : list A;
  test_data : list A;
  rng : G;
}.

(** One turn of the loop. *)
Definition split_row (test_size_int : Z) (st : locals) (row : A) : locals :=
  let '(r, g) := randint (rng st) in
  if r <=? test_size_int then
    {| data := data st; train_data := train_data st;
       test_data := test_data st ++ [row]; rng := g |}
  else
    {| data := data st; train_data := train_data st ++ [row];
       test_data := test_data st; rng := g |}.

(** The body of [split_train_test], down to the state it ends in.  The
    product [test_size * 100] is exact here; the rounded product of binary64
    can give a threshold one lower (28 for 0.29). *)
Definition split_run (d : list A) (test_size : Q) (g : G) : option locals :=
  if test_size_ok test_size then
    let test_size_int := int_of_float (test_size * 100) in
    Some (foldl (split_row test_size_int)
            {| data := d; train_data := []; test_data := []; rng := g |} d)
  else None.

(** [split_train_test]: the pair it returns, [None] for the [ValueError]. *)
Definition split_train_test (d : list A) (test_size : Q) (g : G) : option (list A * list A) :=
  st ← split_run d test_size g;
  Some (train_data st, test_data st).

End WithRandom.

(** The rows of [d] at the positions where [mask] holds [true], in order. *)
Fixpoint pick {A} (mask : list bool) (d : list A) : list A :=
  match mask, d with
  | b :: mask', x :: d' => if b then x :: pick mask' d' else pick mask' d'
  | _, _ => []
  end.

(** A linear congruential generator, to run the split on. *)
Definition lcg_randint (g : Z) : Z * Z :=
  (g mod 100 + 1, (1103515245 * g + 12345) mod 2147483648).

End Split.

Import Split.

(** ** The script *)

(** The body of [if __name__ == '__main__']: the file is the list of its
    lines, each with its line end; what is printed is not described, only the
    tallies and the precision that are printed. *)
Module Script.

Definition tab : N := 9%N.

(** [line.split('\t', maxsplit=1)]: the part before the first tab and, when
    there is a tab, the part after it. *)
Fixpoint split_tab (line : list N) : list N * option (list N) :=
  match line with
  | [] => ([], None)
  | c :: rest =>
      if (c =? tab)%N then ([], Some rest)
      else let '(first, after) := split_tab rest in (c :: first, after)
  end.

(** [category, message = line.split('\t', maxsplit=1)] and the pair appended
    to [messages]; the unpacking raises [ValueError] when the split gives one
    string only. *)
Definition parse_line (line : list N) : option (bool * list N) :=
  match split_tab line with
  | (category, Some message) => Some (bool_decide (category = str "spam"), message)
  | (_, None) => None
  end.

(** The loop that reads the file. *)
Definition read_messages (lines : list (list N)) : option (list (bool * list N)) :=
  mapM parse_line lines.

(** The dictionary [stats]. *)
Record stats := mkStats {
  true_positive : Z;
  false_positive : Z;
  true_negative : Z;
  false_negative : Z;
}.

Definition no_stats : stats :=
  {| true_positive := 0; false_positive := 0; true_negative := 0; false_negative := 0 |}.

(** One turn of the loop over the test rows.  The comparison [> 0.5] is that
    of the exact value, which a rounded value can miss on either side when the
    two accumulators are equal or nearly so. *)
Definition tally (s : SpamFilter) (acc : option stats) (row : bool * list N) : option stats :=
  st ← acc;
  let '(is_spam, message) := row in
  p ← probability_spam s message;
  let spam_prob := if Rlt_dec (1 / 2) p then true else false in
  Some (if spam_prob then
          if is_spam then
            {| true_positive := true_positive st + 1; false_positive := false_positive st;
               true_negative := true_negative st; false_negative := false_negative st |}
          else
            {| true_positive := true_positive st; false_positive := false_positive st + 1;
               true_negative := true_negative st; false_negative := false_negative st |}
        else
          if is_spam then
            {| true_positive := true_positive st; false_positive := false_positive st;
               true_negative := true_negative st; false_negative := false_negative st + 1 |}
          else
            {| true_positive := true_positive st; false_positive := false_positive st;
               true_negative := true_negative st + 1; false_negative := false_negative st |}).

Definition evaluate (s : SpamFilter) (test : list (bool * list N)) : option stats :=
  foldl (tally s) (Some no_stats) test.

(** [n / d] on two ints, a float: [ZeroDivisionError] when [d] is 0. *)
Definition int_div_int (n d : Z) : option Q :=
  if decide (d = 0) then None else Some (inject_Z n / inject_Z d)%Q.

(** [stats['True Positive'] / (stats['True Positive'] + stats['False Positive'])] *)
Definition precision (st : stats) : option Q :=
  int_div_int (true_positive st) (true_positive st + false_positive st).

Section WithRandom.

Context {G : Type} (randint : G → Z * G).

(** The script, from the lines read to the tallies and the precision. *)
Definition main (lines : list (list N)) (g : G) : option (stats * Q) :=
  messages ← read_messages lines;
  '(train_set, test_set) ← split_train_test randint messages (1 # 5) g;
  s ← train init train_set;
  st ← evaluate s test_set;
  p ← precision st;
  Some (st, p).

End WithRandom.

End Script.

Import Script.

(** ** The scenario of section 8 of the specification *)

Definition scenario : list (bool * list N) :=
  [(true, str "win money now"); (false, str "meeting notes attached")].

(** The model trained on the two messages of the scenario of section 8. *)
Definition trained : SpamFilter := default init (train init scenario).

(** ** Notions for the further properties *)

(** A character of an ASCII token: small letter, digit or apostrophe. *)
Definition plain_char (c : N) : bool :=
  is_ascii_lower c || is_ascii_digit c || (c =? apostrophe)%N.

(** A character of ASCII text. *)
Definition ascii_char (c : N) : Prop := (c < 128)%N.

(** The number of messages of the class [is_spam] in a batch, and the number
    of those among them whose tokens hold the word [w]. *)
Definition class_size (is_spam : bool) (messages : list (bool * list N)) : Z :=
  Z.of_nat (length (filter (λ m : bool * list N, m.1 = is_spam) messages)).

Definition occurrences (is_spam : bool) (w : list N) (messages : list (bool * list N)) : Z :=
  Z.of_nat (length (filter (λ m : bool * list N,
                              m.1 = is_spam ∧ w ∈ _tokenize_words m.2) messages)).

(** A batch in which one message holds a word twice. *)
Definition repeated : list (bool * list N) :=
  [(true, str "win win WIN"); (true, str "you win"); (false, str "no")].

(** The batch with the label of every message turned over, and the model with
    the parts of the two classes exchanged. *)
Definition flip_labels (messages : list (bool * list N)) : list (bool * list N) :=
  (λ m : bool * list N, (negb m.1, m.2)) <$> messages.

Definition mirror (s : SpamFilter) : SpamFilter :=
  {| _number_of_spam_messages := _number_of_non_spam_messages s;
     _number_of_non_spam_messages := _number_of_spam_messages s;
     _words_count := prod_swap <$> _words_count s;
     _words_probabilities := prod_swap <$> _words_probabilities s |}.

(** The first [n] numbers a random source gives from the state [g], and the
    state it is left in. *)
Fixpoint draws {G} (randint : G → Z * G) (n : nat) (g : G) : list Z * G :=
  match n with
  | O => ([], g)
  | S n' =>
      let '(r, g') := randint g in
      let '(rs, g'') := draws randint n' g' in
      (r :: rs, g'')
  end.

(** The model trained on the one spam message "i". *)
Definition dotted : list (bool * list N) := [(true, str "i")].

Definition trained_i : SpamFilter := default init (train init dotted).

(** * Properties *)

(** ** Folding messages into the counters *)

Section Counters.

Implicit Types (wc : gmap (list N) (Z * Z)) (w : list N) (X : gset (list N)).

Lemma count_word_lookup b w wc w' :
  count_word b w wc !! w' =
    if decide (w = w') then Some (bump b (default (0, 0) (wc !! w))) else wc !! w'.
Proof.
  unfold count_word, bump.
  destruct (default (0, 0) (wc !! w)) as [sc nc]; simpl.
  destruct b; case_decide; subst; by simplify_map_eq.
Qed.

(** Every word of the message is counted once, the others are left alone. *)
Lemma fold_count_lookup b X wc w :
  set_fold (count_word b) wc X !! w =
    if decide (w ∈ X) then Some (bump b (default (0, 0) (wc !! w))) else wc !! w.
Proof.
  revert w.
  pose (P := λ (r : gmap (list N) (Z * Z)) (Y : gset (list N)), ∀ w : list N,
    r !! w = if decide (w ∈ Y) then Some (bump b (default (0, 0) (wc !! w)))
             else wc !! w).
  apply (set_fold_ind_L P); unfold P; clear P.
  - intros w. case_decide; [set_solver | done].
  - intros x Y r Hx IH w. rewrite count_word_lookup.
    destruct (decide (x = w)) as [->|Hne].
    + rewrite decide_True by set_solver.
      specialize (IH w). rewrite decide_False in IH by done. by rewrite IH.
    + rewrite IH. destruct (decide (w ∈ Y)) as [HY|HY].
      * rewrite decide_True by set_solver. done.
      * rewrite decide_False; [done|].
        rewrite elem_of_union, elem_of_singleton. by intros [->|?].
Qed.

Lemma add_message_count s b message w :
  _words_count (add_message s (b, message)) !! w =
    if decide (w ∈ _tokenize_words message)
    then Some (bump b (default (0, 0) (_words_count s !! w)))
    else _words_count s !! w.
Proof. simpl. apply fold_count_lookup. Qed.

Lemma bump_comm b1 b2 c : bump b1 (bump b2 c) = bump b2 (bump b1 c).
Proof. destruct b1, b2, c; unfold bump; simpl; f_equal; lia. Qed.

(** Two messages can be folded in either order. *)
Lemma add_message_comm s m1 m2 :
  add_message (add_message s m1) m2 = add_message (add_message s m2) m1.
Proof.
  destruct m1 as [b1 t1], m2 as [b2 t2].
  assert (Hwc : _words_count (add_message (add_message s (b1, t1)) (b2, t2)) =
                _words_count (add_message (add_message s (b2, t2)) (b1, t1))).
  { apply map_eq; intros w. rewrite !add_message_count.
    repeat case_decide; simpl; try done. by rewrite bump_comm. }
  unfold add_message in *; simpl in *. rewrite Hwc.
  destruct b1, b2; f_equal; lia.
Qed.

Lemma fold_messages_app s l1 l2 :
  fold_messages s (l1 ++ l2) = fold_messages (fold_messages s l1) l2.
Proof. apply foldl_app. Qed.

Lemma fold_messages_perm s l1 l2 :
  l1 ≡ₚ l2 → fold_messages s l1 = fold_messages s l2.
Proof.
  intros Hp. revert s. induction Hp as [|m l l' _ IH|m1 m2 l|l l' l'' _ IH1 _ IH2];
    intros s; simpl.
  - done.
  - apply IH.
  - unfold fold_messages; simpl. by rewrite add_message_comm.
  - by rewrite IH1.
Qed.

Lemma fold_messages_probabilities s l :
  _words_probabilities (fold_messages s l) = _words_probabilities s.
Proof.
  revert s. induction l as [|[b t] l IH]; intros s; [done|].
  unfold fold_messages in *; simpl. by rewrite IH.
Qed.

End Counters.

(** ** Refreshing the probabilities *)

Section Recalculate.

Implicit Types (wc : gmap (list N) (Z * Z)) (wp : gmap (list N) (Q * Q)).

Lemma float_div_int_nonzero x d : d ≠ 0 → float_div_int x d = Some (x / inject_Z d)%Q.
Proof. intros Hd. unfold float_div_int. by rewrite decide_False. Qed.

(** With non-zero denominators the loop writes the smoothed estimate of every
    counted word and keeps the entries of the other words. *)
Lemma recalculate_fold ns nn wc wp :
  1 + ns ≠ 0 → 1 + nn ≠ 0 →
  map_fold (recalculate_word ns nn) (Some wp) wc = Some ((smoothed ns nn <$> wc) ∪ wp).
Proof.
  intros Hs Hn.
  pose (P := λ (r : option (gmap (list N) (Q * Q))) (m : gmap (list N) (Z * Z)),
               r = Some ((smoothed ns nn <$> m) ∪ wp)).
  apply (map_fold_weak_ind P); unfold P; clear P.
  - by rewrite fmap_empty, (left_id_L ∅ (∪)).
  - intros w c m r _ ->. unfold recalculate_word; simpl.
    rewrite !float_div_int_nonzero by done; simpl.
    by rewrite fmap_insert, insert_union_l.
Qed.

Lemma recalculate_ok s :
  0 ≤ _number_of_spam_messages s → 0 ≤ _number_of_non_spam_messages s →
  _recalculate_probabilities s =
    Some {| _number_of_spam_messages := _number_of_spam_messages s;
            _number_of_non_spam_messages := _number_of_non_spam_messages s;
            _words_count := _words_count s;
            _words_probabilities :=
              (smoothed (_number_of_spam_messages s) (_number_of_non_spam_messages s)
                 <$> _words_count s) ∪ _words_probabilities s |}.
Proof.
  intros Hs Hn. unfold _recalculate_probabilities.
  rewrite recalculate_fold by lia. done.
Qed.

End Recalculate.

(** ** Invariants of training *)

Section Invariants.

Lemma add_message_totals_nonneg s m : totals_nonneg s → totals_nonneg (add_message s m).
Proof. destruct m as [[] t]; unfold totals_nonneg; simpl; lia. Qed.

Lemma fold_messages_totals_nonneg s l : totals_nonneg s → totals_nonneg (fold_messages s l).
Proof.
  revert s. induction l as [|m l IH]; intros s Hs; [done|].
  apply IH, add_message_totals_nonneg, Hs.
Qed.

Lemma add_message_counts_bounded s m :
  totals_nonneg s → counts_bounded s → counts_bounded (add_message s m).
Proof.
  destruct m as [b t]. intros [Hs Hn] Hb w sc nc.
  rewrite add_message_count. case_decide.
  - destruct (_words_count s !! w) as [[sc0 nc0]|] eqn:Hw; simpl.
    + destruct (Hb _ _ _ Hw). destruct b; intros [= <- <-]; simpl; lia.
    + destruct b; intros [= <- <-]; simpl; lia.
  - intros Hw. destruct (Hb _ _ _ Hw). destruct b; simpl; lia.
Qed.

Lemma fold_messages_counts_bounded s l :
  totals_nonneg s → counts_bounded s → counts_bounded (fold_messages s l).
Proof.
  revert s. induction l as [|m l IH]; intros s Hs Hb; [done|].
  apply IH; [by apply add_message_totals_nonneg | by apply add_message_counts_bounded].
Qed.

(** Counters only grow: a counted word stays counted. *)
Lemma add_message_dom s m :
  dom (_words_count s) ⊆ dom (_words_count (add_message s m)).
Proof.
  destruct m as [b t]. intros w. rewrite !elem_of_dom, add_message_count.
  case_decide; eauto.
Qed.

Lemma fold_messages_dom s l :
  dom (_words_count s) ⊆ dom (_words_count (fold_messages s l)).
Proof.
  revert s. induction l as [|m l IH]; intros s; [done|].
  etrans; [apply (add_message_dom s m) | apply IH].
Qed.

(** What [train] returns on a model whose totals are not negative. *)
Lemma train_ok s messages :
  totals_nonneg s →
  train s messages =
    Some (let s1 := fold_messages s messages in
          {| _number_of_spam_messages := _number_of_spam_messages s1;
             _number_of_non_spam_messages := _number_of_non_spam_messages s1;
             _words_count := _words_count s1;
             _words_probabilities :=
               (smoothed (_number_of_spam_messages s1) (_number_of_non_spam_messages s1)
                  <$> _words_count s1) ∪ _words_probabilities s |}).
Proof.
  intros Hs. unfold train, _add_messages.
  destruct (fold_messages_totals_nonneg s messages Hs) as [H1 H2].
  rewrite recalculate_ok by done. simpl. by rewrite fold_messages_probabilities.
Qed.

(** A union with a map of smaller domain on the right is the left map. *)
Lemma union_fmap_absorb {A B} (f : A → B) (m : gmap (list N) A) (m' : gmap (list N) B) :
  dom m' ⊆ dom m → (f <$> m) ∪ m' = f <$> m.
Proof.
  intros Hd. apply map_eq; intros w. rewrite lookup_union, lookup_fmap.
  destruct (m !! w) as [x|] eqn:Hw; simpl.
  - by destruct (m' !! w).
  - assert (m' !! w = None) as ->; [|done].
    apply not_elem_of_dom. intros Hin. apply Hd in Hin.
    apply elem_of_dom in Hin as [? ?]. congruence.
Qed.

Lemma train_current s messages s' :
  totals_nonneg s → probabilities_current s →
  train s messages = Some s' → probabilities_current s'.
Proof.
  intros Hs Hc. rewrite train_ok by done. intros [= <-].
  unfold probabilities_current; simpl.
  apply union_fmap_absorb. rewrite Hc, dom_fmap_L. apply fold_messages_dom.
Qed.

Lemma reachable_invariant s :
  reachable s → totals_nonneg s ∧ counts_bounded s ∧ probabilities_current s.
Proof.
  induction 1 as [|s messages s' _ (Hs & Hb & Hc) Ht].
  - split; [by unfold totals_nonneg|]. split.
    + intros w sc nc; simpl. by rewrite lookup_empty.
    + unfold probabilities_current; simpl. by rewrite fmap_empty.
  - pose proof (train_current _ _ _ Hs Hc Ht) as Hc'.
    rewrite train_ok in Ht by done. injection Ht as <-.
    split; [apply (fold_messages_totals_nonneg s messages Hs)|].
    split; [apply (fold_messages_counts_bounded s messages Hs Hb) | done].
Qed.

(** The smoothing keeps an estimate strictly between 0 and 1 when the tally
    is between 0 and the total. *)
Lemma smoothed_between (c n : Z) :
  0 ≤ c ≤ n → (0 < half_plus c / inject_Z (1 + n) ∧ half_plus c / inject_Z (1 + n) < 1)%Q.
Proof.
  intros [H0 Hn]. unfold half_plus.
  assert (Hc : (inject_Z 0 <= inject_Z c)%Q) by (by rewrite <- Zle_Qle).
  change (inject_Z 0) with 0%Q in Hc.
  assert (Hcn : (inject_Z c <= inject_Z n)%Q) by (by rewrite <- Zle_Qle).
  assert (Hd : inject_Z (1 + n) = (1 + inject_Z n)%Q) by apply inject_Z_plus.
  rewrite Hd. split.
  - apply Qlt_shift_div_l; Lqa.lra.
  - apply Qlt_shift_div_r; Lqa.lra.
Qed.

End Invariants.

(** ** Training *)

Section TrainingTheorems.

Lemma add_message_same_counters s1 s2 m :
  _number_of_spam_messages s1 = _number_of_spam_messages s2 →
  _number_of_non_spam_messages s1 = _number_of_non_spam_messages s2 →
  _words_count s1 = _words_count s2 →
  add_message s1 m =
    {| _number_of_spam_messages := _number_of_spam_messages (add_message s2 m);
       _number_of_non_spam_messages := _number_of_non_spam_messages (add_message s2 m);
       _words_count := _words_count (add_message s2 m);
       _words_probabilities := _words_probabilities s1 |}.
Proof. destruct m as [b t]. intros H1 H2 H3. unfold add_message. by rewrite H1, H2, H3. Qed.

(** The counters after a batch depend on the counters before it only. *)
Lemma fold_messages_same_counters l s1 s2 :
  _number_of_spam_messages s1 = _number_of_spam_messages s2 →
  _number_of_non_spam_messages s1 = _number_of_non_spam_messages s2 →
  _words_count s1 = _words_count s2 →
  _number_of_spam_messages (fold_messages s1 l) = _number_of_spam_messages (fold_messages s2 l)
  ∧ _number_of_non_spam_messages (fold_messages s1 l)
    = _number_of_non_spam_messages (fold_messages s2 l)
  ∧ _words_count (fold_messages s1 l) = _words_count (fold_messages s2 l).
Proof.
  revert s1 s2. induction l as [|m l IH]; intros s1 s2 H1 H2 H3; [done|].
  unfold fold_messages in *; simpl. apply IH;
    by rewrite (add_message_same_counters s1 s2 m).
Qed.

(** Two calls of [train] amount to one call on the two batches in a row. *)
Lemma train_train s l1 l2 :
  totals_nonneg s →
  train s l1 ≫= (λ s1, train s1 l2) = train s (l1 ++ l2).
Proof.
  intros Hs. rewrite (train_ok s l1 Hs); simpl.
  set (s1 := {| _number_of_spam_messages := _ |}).
  assert (Hs1 : totals_nonneg s1) by apply (fold_messages_totals_nonneg s l1 Hs).
  rewrite (train_ok s1 l2 Hs1), (train_ok s (l1 ++ l2) Hs); simpl.
  destruct (fold_messages_same_counters l2 s1 (fold_messages s l1)) as (E1 & E2 & E3);
    [done..|].
  rewrite fold_messages_app, E1, E2, E3. do 2 f_equal.
  apply map_eq; intros w. rewrite !lookup_union, !lookup_fmap.
  pose proof (fold_messages_dom (fold_messages s l1) l2 w) as Hdom.
  rewrite !elem_of_dom in Hdom.
  destruct (_words_count (fold_messages (fold_messages s l1) l2) !! w) as [c2|],
    (_words_count (fold_messages s l1) !! w) as [c1|],
    (_words_probabilities s !! w) as [pr|]; simpl; try done;
    destruct Hdom as [? [=]]; by eexists.
Qed.

(** C4: on a new model, training on a batch [A] and then on a batch [B] returns
    the very model (counters, totals and probabilities) that training once on
    [A ++ B] returns, and so does training on any two batches [A'] and [B']
    that hold the same messages in another order or cut at another place. *)
Theorem train_cumulative (A B : list (bool * list N)) :
  is_Some (train init (A ++ B))
  ∧ train init A ≫= (λ s, train s B) = train init (A ++ B)
  ∧ ∀ A' B', A' ++ B' ≡ₚ A ++ B →
      train init A' ≫= (λ s, train s B') = train init (A ++ B).
Proof.
  assert (H0 : totals_nonneg init) by done.
  split; [rewrite train_ok by done; eauto|].
  split; [by apply train_train|].
  intros A' B' Hp. rewrite train_train by done.
  unfold train, _add_messages. by rewrite (fold_messages_perm init _ _ Hp).
Qed.

(** C5: in a model obtained from a new one by calls of [train], the two stored
    probabilities of a word are strictly between 0 and 1; the word is counted,
    neither tally is negative or above the total of its class, and the
    probabilities are the smoothed estimates of the tallies. *)
Theorem probabilities_strictly_between (s : SpamFilter) (t : list N) (p q : Q) :
  reachable s → _words_probabilities s !! t = Some (p, q) →
  ((0 < p)%Q ∧ (p < 1)%Q ∧ (0 < q)%Q ∧ (q < 1)%Q)
  ∧ ∃ sc nc, _words_count s !! t = Some (sc, nc)
      ∧ 0 ≤ sc ≤ _number_of_spam_messages s
      ∧ 0 ≤ nc ≤ _number_of_non_spam_messages s
      ∧ p = (((1 # 2) + inject_Z sc) / inject_Z (1 + _number_of_spam_messages s))%Q
      ∧ q = (((1 # 2) + inject_Z nc) / inject_Z (1 + _number_of_non_spam_messages s))%Q.
Proof.
  intros (Hs & Hb & Hc)%reachable_invariant. rewrite Hc, lookup_fmap.
  destruct (_words_count s !! t) as [[sc nc]|] eqn:Ht; simpl; [|done].
  intros [= <- <-]. destruct (Hb _ _ _ Ht) as [H1 H2].
  destruct (smoothed_between sc _ H1), (smoothed_between nc _ H2).
  split; [done|]. by exists sc, nc.
Qed.

End TrainingTheorems.

Lemma trained_reachable : reachable trained.
Proof. apply (reachable_train init scenario); [constructor | vm_compute; reflexivity]. Defined.

Lemma probabilities_strictly_between_witness :
  reachable trained
  ∧ _words_probabilities trained !! str "win" = Some (3 # 4, 1 # 4)%Q
  ∧ ((0 < 3 # 4)%Q ∧ (3 # 4 < 1)%Q ∧ (0 < 1 # 4)%Q ∧ (1 # 4 < 1)%Q)
  ∧ ∃ sc nc, _words_count trained !! str "win" = Some (sc, nc)
      ∧ 0 ≤ sc ≤ _number_of_spam_messages trained
      ∧ 0 ≤ nc ≤ _number_of_non_spam_messages trained
      ∧ (3 # 4)%Q = (((1 # 2) + inject_Z sc) / inject_Z (1 + _number_of_spam_messages trained))%Q
      ∧ (1 # 4)%Q = (((1 # 2) + inject_Z nc) / inject_Z (1 + _number_of_non_spam_messages trained))%Q.
Proof.
  split; [exact trained_reachable|].
  split; [vm_compute; reflexivity|].
  apply (probabilities_strictly_between trained (str "win"));
    [exact trained_reachable | vm_compute; reflexivity].
Defined.

(** ** The tokenizer *)

Section TokenizerTheorems.

Ltac bool_arith :=
  unfold ascii_to_lower, word_char, is_ascii_letter in *;
  unfold is_ascii_upper, is_ascii_lower, is_ascii_digit, ignorecase_extra,
    apostrophe, dash in *;
  repeat match goal with
    | H : context [N.leb ?a ?b] |- _ => destruct (N.leb_spec a b); simpl in H
    | H : context [N.eqb ?a ?b] |- _ => destruct (N.eqb_spec a b); simpl in H
    | |- context [N.leb ?a ?b] => destruct (N.leb_spec a b); simpl
    | |- context [N.eqb ?a ?b] => destruct (N.eqb_spec a b); simpl
    end;
  try done; try lia.

Lemma lower_char_ascii_letter c :
  is_ascii_letter c = true → lower_char c = [ascii_to_lower c].
Proof. intros H. unfold lower_char. bool_arith. Qed.

Lemma is_ascii_letter_word_char c : is_ascii_letter c = true → word_char c = true.
Proof. intros H. unfold word_char. by rewrite H. Qed.

Lemma case_variant_word_char c d : case_variant_char c d → word_char c = word_char d.
Proof.
  intros [->|(Hc & Hd & _)]; [done|].
  by rewrite !is_ascii_letter_word_char.
Qed.

Lemma case_variant_lower_char c d : case_variant_char c d → lower_char c = lower_char d.
Proof.
  intros [->|(Hc & Hd & Heq)]; [done|].
  by rewrite !lower_char_ascii_letter, Heq.
Qed.

Lemma case_variant_lower w1 w2 : case_variant w1 w2 → lower w1 = lower w2.
Proof.
  unfold lower. induction 1 as [|c d w1 w2 Hcd _ IH]; [done|].
  by rewrite !bind_cons, IH, (case_variant_lower_char c d).
Qed.

Lemma case_variant_emit run1 run2 :
  case_variant run1 run2 → lower <$> emit run1 = lower <$> emit run2.
Proof.
  intros Hr. destruct Hr as [|c d r1 r2 Hcd Hr]; [done|]. simpl. f_equal.
  apply case_variant_lower, Forall2_reverse. by constructor.
Qed.

Lemma case_variant_findall_run text1 text2 :
  case_variant text1 text2 → ∀ run1 run2, case_variant run1 run2 →
  lower <$> findall_run word_char run1 text1 = lower <$> findall_run word_char run2 text2.
Proof.
  induction 1 as [|c d t1 t2 Hcd _ IH]; intros run1 run2 Hr; simpl.
  - by apply case_variant_emit.
  - rewrite (case_variant_word_char c d Hcd). destruct (word_char d).
    + apply IH. by constructor.
    + rewrite !fmap_app. f_equal; [by apply case_variant_emit|].
      apply IH. constructor.
Qed.

(** Case variants have the same set of tokens. *)
Lemma tokenize_case_variant text1 text2 :
  case_variant text1 text2 → _tokenize_words text1 = _tokenize_words text2.
Proof.
  intros H. unfold _tokenize_words, findall.
  by rewrite (case_variant_findall_run _ _ H [] []) by constructor.
Qed.

(** The words [findall] returns hold characters of the class only. *)
Lemma findall_run_class cls text : ∀ run,
  Forall (λ c, cls c = true) run →
  Forall (Forall (λ c, cls c = true)) (findall_run cls run text).
Proof.
  induction text as [|c text IH]; intros run Hrun; simpl.
  - destruct run; constructor; [|constructor]. by apply Forall_reverse.
  - destruct (cls c) eqn:Hc.
    + apply IH. by constructor.
    + apply Forall_app. split; [|apply IH; constructor].
      destruct run; constructor; [|constructor]. by apply Forall_reverse.
Qed.

Lemma lower_char_no_dash c : word_char c = true → dash ∉ lower_char c.
Proof.
  intros Hc. unfold lower_char.
  destruct (is_ascii_upper c) eqn:Hu; [|destruct (c =? 304)%N; [|destruct (c =? 8490)%N]].
  - intros Heq%list_elem_of_singleton. bool_arith.
  - rewrite !not_elem_of_cons, elem_of_nil. unfold dash. repeat split; (lia || tauto).
  - rewrite !not_elem_of_cons, elem_of_nil. unfold dash. repeat split; (lia || tauto).
  - intros Heq%list_elem_of_singleton. bool_arith.
Qed.

Lemma token_no_dash message t : t ∈ _tokenize_words message → dash ∉ t.
Proof.
  unfold _tokenize_words. rewrite elem_of_list_to_set, list_elem_of_fmap.
  intros (w & -> & Hw). unfold lower. rewrite list_elem_of_bind.
  intros (c & Hd & Hc). revert Hd. apply lower_char_no_dash.
  pose proof (findall_run_class word_char message [] (Forall_nil_2 _)) as Hall.
  rewrite Forall_forall in Hall. specialize (Hall w Hw).
  rewrite Forall_forall in Hall. by apply Hall.
Qed.

(** Beyond ASCII: U+0130 is a word character under [re.IGNORECASE], and its
    lower case, "i" followed by U+0307, is not one word; the case variants of
    [case_variant] are those of the ASCII letters. *)
Example tokenize_dotted_capital_i :
  _tokenize_words [304%N] = {[ [105%N; 775%N] ]}
  ∧ _tokenize_words (lower [304%N]) = {[ [105%N] ]}.
Proof. split; vm_compute; reflexivity. Qed.

(** C3: the tokenizer of the code has no dash in its character class.  On
    "e-mail" it returns the two tokens "e" and "mail", where the tokenizer of
    the specification returns the one token "e-mail"; and no token it returns,
    on any text, holds a dash. *)
Theorem tokenizer_breaks_at_dash :
  _tokenize_words (str "e-mail") = {[ str "e"; str "mail" ]}
  ∧ tokenize_spec (str "e-mail") = {[ str "e-mail" ]}
  ∧ (str "e-mail" ∉ _tokenize_words (str "e-mail"))
  ∧ ∀ message t, t ∈ _tokenize_words message → dash ∉ t.
Proof.
  split; [vm_compute; reflexivity|].
  split; [vm_compute; reflexivity|].
  split; [|apply token_no_dash].
  intros H%token_no_dash. apply H, list_elem_of_In. simpl. auto.
Qed.

End TokenizerTheorems.

(** ** Inference *)

Section InferenceTheorems.

Lemma math_log_pos x : (0 < x)%Q → math_log x = Some (ln (Q2R x)).
Proof.
  intros Hx. unfold math_log. destruct (Qlt_le_dec 0 x) as [_|Hle]; [done|].
  exfalso. Lqa.lra.
Qed.

Lemma math_log_Some x r : math_log x = Some r → r = ln (Q2R x).
Proof. unfold math_log. destruct (Qlt_le_dec 0 x); by intros [= <-]. Qed.

(** The quotient that ends [probability_spam] never divides by zero. *)
Lemma float_div_exp a b :
  float_div (math_exp a) (math_exp a + math_exp b) = Some (exp a / (exp a + exp b))%R.
Proof.
  unfold float_div, math_exp. destruct (Req_dec_T _ _) as [H0|_]; [|done].
  pose proof (exp_pos a). pose proof (exp_pos b). exfalso. Lra.lra.
Qed.

(** Whenever the loop ends without an error, each accumulator is its base
    term plus the evidence of every word of the vocabulary. *)
Lemma score_fold_Some words l a0 b0 a b :
  foldr (uncurry (score_word words)) (Some (a0, b0)) l = Some (a, b) →
  a = (a0 + sum_R (spam_evidence words <$> l))%R
  ∧ b = (b0 + sum_R (non_spam_evidence words <$> l))%R.
Proof.
  unfold sum_R. revert a b. induction l as [|[w [p q]] l IH]; intros a b.
  - simpl. intros [= <- <-]. split; Lra.lra.
  - rewrite !fmap_cons. cbn [foldr uncurry].
    destruct (foldr _ _ l) as [[a1 b1]|]; [|done].
    destruct (IH a1 b1 eq_refl) as [-> ->]. clear IH.
    set (sa := foldr Rplus 0%R (spam_evidence words <$> l)).
    set (sb := foldr Rplus 0%R (non_spam_evidence words <$> l)).
    unfold spam_evidence at 1, non_spam_evidence at 1, evidence, score_word.
    cbn [fst snd mbind option_bind].
    case_decide as Hw.
    + rewrite (bool_decide_eq_true_2 _ Hw).
      destruct (math_log p) as [x|] eqn:Hp; cbn [mbind option_bind]; [|done].
      destruct (math_log q) as [y|] eqn:Hq; cbn [mbind option_bind]; [|done].
      apply math_log_Some in Hp as ->. apply math_log_Some in Hq as ->.
      intros [= <- <-]. split; Lra.lra.
    + rewrite (bool_decide_eq_false_2 _ Hw).
      destruct (math_log (1 - p)) as [x|] eqn:Hp; cbn [mbind option_bind]; [|done].
      destruct (math_log (1 - q)) as [y|] eqn:Hq; cbn [mbind option_bind]; [|done].
      apply math_log_Some in Hp as ->. apply math_log_Some in Hq as ->.
      intros [= <- <-]. split; Lra.lra.
Qed.

Lemma score_fold_total words l a0 b0 :
  Forall strictly_between l →
  is_Some (foldr (uncurry (score_word words)) (Some (a0, b0)) l).
Proof.
  induction 1 as [|[w [p q]] l [[Hp0 Hp1] [Hq0 Hq1]] _ [[a b] IH]]; simpl in *; [eauto|].
  rewrite IH; simpl. case_decide.
  - rewrite !math_log_pos by done. simpl. eauto.
  - rewrite !math_log_pos by Lqa.lra. simpl. eauto.
Qed.

(** Whenever [probability_spam] returns, it returns the value of the
    specification. *)
Lemma probability_spam_Some s message r :
  probability_spam s message = Some r → r = classify_spec s message.
Proof.
  unfold probability_spam, classify_spec, spam_acc, non_spam_acc,
    log_prior_spam, log_prior_non_spam.
  set (ns := _number_of_spam_messages s). set (nn := _number_of_non_spam_messages s).
  unfold float_div_int. case_decide as Hd; simpl; [done|].
  destruct (math_log (half_plus ns / _)) as [a0|] eqn:Ha; simpl; [|done].
  destruct (math_log (half_plus nn / _)) as [b0|] eqn:Hb; simpl; [|done].
  apply math_log_Some in Ha as ->. apply math_log_Some in Hb as ->.
  rewrite map_fold_foldr.
  destruct (foldr _ _ _) as [[a b]|] eqn:Hf; simpl; [|done].
  apply score_fold_Some in Hf as [-> ->].
  rewrite float_div_exp. by intros [= <-].
Qed.

Lemma prior_positive n d : 0 ≤ n → 0 < d → (0 < half_plus n / inject_Z d)%Q.
Proof.
  intros Hn Hd. unfold half_plus.
  assert (Hn' : (inject_Z 0 <= inject_Z n)%Q) by (by rewrite <- Zle_Qle).
  assert (Hd' : (inject_Z 0 < inject_Z d)%Q) by (by rewrite <- Zlt_Qlt).
  change (inject_Z 0) with 0%Q in *.
  apply Qlt_shift_div_l; Lqa.lra.
Qed.

Lemma reachable_strictly_between s :
  reachable s → Forall strictly_between (map_to_list (_words_probabilities s)).
Proof.
  intros (Hs & Hb & Hc)%reachable_invariant.
  apply Forall_forall. intros [w [p q]] Hin%elem_of_map_to_list.
  rewrite Hc, lookup_fmap in Hin.
  destruct (_words_count s !! w) as [[sc nc]|] eqn:Hw; simpl in Hin; [|done].
  injection Hin as <- <-. destruct (Hb _ _ _ Hw).
  split; simpl; by apply smoothed_between.
Qed.

(** On a model obtained by training, [probability_spam] returns. *)
Lemma probability_spam_total s message :
  reachable s → is_Some (probability_spam s message).
Proof.
  intros Hr. pose proof (reachable_invariant s Hr) as ([Hs Hn] & _ & _).
  unfold probability_spam.
  rewrite !float_div_int_nonzero by lia; simpl.
  rewrite !math_log_pos by (apply prior_positive; lia); simpl.
  rewrite map_fold_foldr.
  edestruct score_fold_total as [[a b] ->]; [by apply reachable_strictly_between|].
  simpl. rewrite float_div_exp. eauto.
Qed.

(** On the new model the classifier of the specification is one half. *)
Lemma classify_spec_init message : classify_spec init message = (1 / 2)%R.
Proof.
  unfold classify_spec, spam_acc, non_spam_acc, log_prior_spam, log_prior_non_spam.
  cbn [init _number_of_spam_messages _number_of_non_spam_messages _words_probabilities].
  rewrite map_to_list_empty. cbn [fmap list_fmap sum_R foldr].
  pose proof (exp_pos (ln (Q2R (half_plus 0 / inject_Z (1 + 0 + 0))) + 0)).
  field. Lra.lra.
Qed.

Lemma probability_spam_init_empty : probability_spam init [] = Some (1 / 2)%R.
Proof.
  destruct (probability_spam_total init [] reachable_init) as [r Hr].
  by rewrite Hr, (probability_spam_Some _ _ _ Hr), classify_spec_init.
Qed.


(** C6: on a model that was never trained, [probability_spam] returns, and
    returns exactly one half, whatever the text. *)
Theorem untrained_probability_half (message : list N) :
  probability_spam init message = Some (1 / 2)%R.
Proof.
  unfold probability_spam.
  cbn [init _number_of_spam_messages _number_of_non_spam_messages _words_probabilities].
  rewrite !float_div_int_nonzero by lia; cbn [mbind option_bind].
  rewrite !math_log_pos by (by apply prior_positive); cbn [mbind option_bind].
  rewrite map_fold_empty; cbn [mbind option_bind fst snd].
  rewrite float_div_exp. f_equal.
  pose proof (exp_pos (ln (Q2R (half_plus 0 / inject_Z (1 + 0 + 0))))).
  field. Lra.lra.
Qed.

(** C9, as amended: two texts that differ only in the case of their ASCII
    letters get the same answer from [probability_spam], on every model.  (For
    case pairs outside ASCII the answers can differ, as shown at the end of
    the file.) *)
Theorem probability_spam_case_insensitive (s : SpamFilter) (text1 text2 : list N) :
  case_variant text1 text2 → probability_spam s text1 = probability_spam s text2.
Proof.
  intros H. unfold probability_spam. by rewrite (tokenize_case_variant _ _ H).
Qed.

End InferenceTheorems.

(** ** The train/test split *)

Section SplitTheorems.

Context {A G : Type} (randint : G → Z * G).

Lemma test_size_ok_spec t :
  test_size_ok t = true ↔ ((1 # 10) < t)%Q ∧ (t < (99 # 100))%Q.
Proof.
  unfold test_size_ok.
  destruct (Qlt_le_dec t (99 # 100)), (Qlt_le_dec (1 # 10) t); simpl;
    split; try done; try (intros [? ?]; exfalso; Lqa.lra).
Qed.

Lemma pick_sublist (mask : list bool) (d : list A) : pick mask d `sublist_of` d.
Proof.
  revert mask. induction d as [|x d IH]; intros [|[] mask]; simpl;
    try apply sublist_nil_l.
  - by apply sublist_skip.
  - by apply sublist_cons_r; left.
Qed.

Lemma pick_partition (mask : list bool) (d : list A) :
  length mask = length d → pick (negb <$> mask) d ++ pick mask d ≡ₚ d.
Proof.
  revert mask. induction d as [|x d IH]; intros [|b mask] Hlen; simpl in *; try done.
  destruct b; simpl.
  - rewrite <- Permutation_middle. constructor. apply IH. lia.
  - constructor. apply IH. lia.
Qed.

(** The loop leaves [data] as it is and hands each row, in turn, to the end of
    one of the two lists: [mask] tells which rows went to the test list. *)
Lemma split_loop_mask k (d : list A) : ∀ st,
  ∃ mask : list bool, length mask = length d
    ∧ data (foldl (split_row randint k) st d) = data st
    ∧ train_data (foldl (split_row randint k) st d)
      = train_data st ++ pick (negb <$> mask) d
    ∧ test_data (foldl (split_row randint k) st d) = test_data st ++ pick mask d.
Proof.
  induction d as [|row d IH]; intros st; simpl.
  - exists []. by rewrite !app_nil_r.
  - destruct (IH (split_row randint k st row)) as (mask & Hlen & Hd & Htr & Hte).
    rewrite Hd, Htr, Hte. unfold split_row.
    destruct (randint (rng st)) as [r g]. destruct (r <=? k); simpl.
    + exists (true :: mask); simpl. by rewrite <- app_assoc, Hlen.
    + exists (false :: mask); simpl. by rewrite <- app_assoc, Hlen.
Qed.

Lemma split_run_mask (d : list A) t g :
  test_size_ok t = true →
  ∃ st mask, split_run randint d t g = Some st
    ∧ length mask = length d ∧ data st = d
    ∧ train_data st = pick (negb <$> mask) d ∧ test_data st = pick mask d.
Proof.
  intros Hok. unfold split_run. rewrite Hok.
  edestruct (split_loop_mask (int_of_float (t * 100)) d) as (mask & Hlen & Hd & Htr & Hte).
  eexists _, mask. split; [done|]. rewrite Hd, Htr, Hte. done.
Qed.

(** C7: [split_train_test] raises exactly when [test_size] is not strictly
    between 0.1 and 0.99; 0.05 and 1.0 are refused. *)
Theorem split_rejects_test_size (d : list A) (g : G) :
  (∀ test_size, split_train_test randint d test_size g = None
                ↔ ¬ (((1 # 10) < test_size)%Q ∧ (test_size < (99 # 100))%Q))
  ∧ split_train_test randint d (5 # 100) g = None
  ∧ split_train_test randint d 1 g = None.
Proof.
  split; [|done]. intros t. rewrite <- test_size_ok_spec.
  unfold split_train_test, split_run. destruct (test_size_ok t); simpl.
  - split; [done|]. by intros [].
  - split; [|done]. by intros _.
Qed.

(** C8: with a valid [test_size], whatever the rows and the random source,
    the function returns two lists that share out the rows: a row goes to the
    test list or to the training list according to its position, the two lists
    together are a rearrangement of the input, and their lengths add up to the
    length of the input. *)
Theorem split_partitions (d : list A) (test_size : Q) (g : G) :
  ((1 # 10) < test_size)%Q → (test_size < (99 # 100))%Q →
  ∃ (train test : list A) (mask : list bool),
    split_train_test randint d test_size g = Some (train, test)
    ∧ length mask = length d
    ∧ test = pick mask d ∧ train = pick (negb <$> mask) d
    ∧ train ++ test ≡ₚ d
    ∧ (length train + length test = length d)%nat.
Proof.
  intros H1 H2.
  destruct (split_run_mask d test_size g) as (st & mask & Hrun & Hlen & _ & Htr & Hte).
  { apply test_size_ok_spec. by split. }
  exists (train_data st), (test_data st), mask.
  unfold split_train_test. rewrite Hrun; simpl.
  pose proof (pick_partition mask d Hlen) as Hp.
  repeat split; try done.
  - by rewrite Htr, Hte.
  - rewrite <- length_app, Htr, Hte. by apply Permutation_length.
Qed.

(** C10: the run ends with [data] as it was given, and the list of training
    rows and the list of test rows it returns are each a subsequence of it:
    the rows keep the order they have in the input. *)
Theorem split_preserves_order (d : list A) (test_size : Q) (g : G) (train test : list A) :
  split_train_test randint d test_size g = Some (train, test) →
  (∃ st, split_run randint d test_size g = Some st
         ∧ data st = d ∧ train_data st = train ∧ test_data st = test)
  ∧ train `sublist_of` d ∧ test `sublist_of` d.
Proof.
  unfold split_train_test. destruct (test_size_ok test_size) eqn:Hok.
  - destruct (split_run_mask d test_size g Hok) as (st & mask & -> & _ & Hd & Htr & Hte).
    simpl. intros [= <- <-]. split; [by exists st|].
    rewrite Htr, Hte. split; apply pick_sublist.
  - unfold split_run. by rewrite Hok.
Qed.

End SplitTheorems.

Lemma split_partitions_witness :
  ((1 # 10) < 2 # 5)%Q ∧ ((2 # 5) < 99 # 100)%Q
  ∧ ∃ (train test : list nat) (mask : list bool),
      split_train_test lcg_randint [1; 2; 3; 4; 5; 6; 7; 8; 9; 10]%nat (2 # 5) 42
        = Some (train, test)
      ∧ length mask = length [1; 2; 3; 4; 5; 6; 7; 8; 9; 10]%nat
      ∧ test = pick mask [1; 2; 3; 4; 5; 6; 7; 8; 9; 10]%nat
      ∧ train = pick (negb <$> mask) [1; 2; 3; 4; 5; 6; 7; 8; 9; 10]%nat
      ∧ train ++ test ≡ₚ [1; 2; 3; 4; 5; 6; 7; 8; 9; 10]%nat
      ∧ (length train + length test = length [1; 2; 3; 4; 5; 6; 7; 8; 9; 10]%nat)%nat.
Proof.
  split; [reflexivity|]. split; [reflexivity|].
  apply (split_partitions lcg_randint [1; 2; 3; 4; 5; 6; 7; 8; 9; 10]%nat (2 # 5) 42);
    reflexivity.
Defined.

Lemma split_preserves_order_witness :
  split_train_test lcg_randint [1; 2; 3; 4; 5; 6; 7; 8; 9; 10]%nat (2 # 5) 42
    = Some ([1; 3; 4; 9; 10], [2; 5; 6; 7; 8])%nat
  ∧ (∃ st, split_run lcg_randint [1; 2; 3; 4; 5; 6; 7; 8; 9; 10]%nat (2 # 5) 42 = Some st
           ∧ data st = [1; 2; 3; 4; 5; 6; 7; 8; 9; 10]%nat
           ∧ train_data st = [1; 3; 4; 9; 10]%nat ∧ test_data st = [2; 5; 6; 7; 8]%nat)
  ∧ [1; 3; 4; 9; 10]%nat `sublist_of` [1; 2; 3; 4; 5; 6; 7; 8; 9; 10]%nat
  ∧ [2; 5; 6; 7; 8]%nat `sublist_of` [1; 2; 3; 4; 5; 6; 7; 8; 9; 10]%nat.
Proof.
  split; [vm_compute; reflexivity|].
  apply (split_preserves_order lcg_randint [1; 2; 3; 4; 5; 6; 7; 8; 9; 10]%nat (2 # 5) 42).
  vm_compute; reflexivity.
Defined.

Lemma train_cumulative_witness :
  is_Some (train init (scenario ++ [(true, str "Free money")]))
  ∧ train init scenario ≫= (λ s, train s [(true, str "Free money")])
    = train init (scenario ++ [(true, str "Free money")])
  ∧ train init [(true, str "Free money")] ≫= (λ s, train s scenario)
    = train init (scenario ++ [(true, str "Free money")]).
Proof.
  destruct (train_cumulative scenario [(true, str "Free money")]) as (H1 & H2 & H3).
  split; [exact H1|]. split; [exact H2|].
  apply (H3 [(true, str "Free money")] scenario).
  apply Permutation_app_comm.
Defined.


Lemma probability_spam_case_insensitive_witness :
  case_variant (str "FREE MONEY") (str "free money")
  ∧ probability_spam trained (str "FREE MONEY") = probability_spam trained (str "free money").
Proof.
  assert (H : case_variant (str "FREE MONEY") (str "free money")).
  { repeat (constructor; [first [by left | right; repeat split; reflexivity]|]).
    constructor. }
  split; [exact H|].
  apply (probability_spam_case_insensitive trained _ _ H).
Defined.

(** ** The scenario, run *)

Example tokenize_example :
  _tokenize_words (str "Win MONEY now, win!") = {[ str "win"; str "money"; str "now" ]}.
Proof. vm_compute. reflexivity. Qed.

Example tokenize_empty : _tokenize_words [] = ∅.
Proof. reflexivity. Qed.

Example scenario_vocabulary :
  dom (_words_count trained)
  = {[ str "win"; str "money"; str "now"; str "meeting"; str "notes"; str "attached" ]}.
Proof. vm_compute. reflexivity. Qed.

Example scenario_win :
  _words_count trained !! str "win" = Some (1, 0)
  ∧ _words_probabilities trained !! str "win" = Some (3 # 4, 1 # 4)%Q.
Proof. split; vm_compute; reflexivity. Qed.

Example scenario_meeting :
  _words_count trained !! str "meeting" = Some (0, 1)
  ∧ _words_probabilities trained !! str "meeting" = Some (1 # 4, 3 # 4)%Q.
Proof. split; vm_compute; reflexivity. Qed.

Example split_example :
  split_train_test lcg_randint [1; 2; 3; 4; 5; 6; 7; 8; 9; 10]%nat (2 # 5) 42
  = Some ([1; 3; 4; 9; 10], [2; 5; 6; 7; 8])%nat.
Proof. vm_compute. reflexivity. Qed.

(** * Further properties *)

(** ** The tokenizer, further *)

Section TokenizerFurther.

Ltac char_arith :=
  unfold plain_char, ascii_char, lower_char, ascii_to_lower, word_char, is_ascii_letter in *;
  unfold is_ascii_upper, is_ascii_lower, is_ascii_digit, ignorecase_extra,
    apostrophe, dash in *;
  repeat match goal with
    | H : context [N.leb ?a ?b] |- _ => destruct (N.leb_spec a b); simpl in H
    | H : context [N.eqb ?a ?b] |- _ => destruct (N.eqb_spec a b); simpl in H
    | |- context [N.leb ?a ?b] => destruct (N.leb_spec a b); simpl
    | |- context [N.eqb ?a ?b] => destruct (N.eqb_spec a b); simpl
    end;
  try done; try lia.

(** A separator ends the run being read and starts afresh. *)
Lemma findall_run_separator cls sep a b : cls sep = false → ∀ run,
  findall_run cls run (a ++ sep :: b) = findall_run cls run a ++ findall_run cls [] b.
Proof.
  intros Hsep. induction a as [|c a IH]; intros run; simpl.
  - by rewrite Hsep.
  - destruct (cls c); [apply IH|]. by rewrite IH, app_assoc.
Qed.

(** A run of characters of the class is read as one word. *)
Lemma findall_run_word cls w : Forall (λ c, cls c = true) w → ∀ run,
  findall_run cls run w = emit (reverse w ++ run).
Proof.
  induction 1 as [|c w Hc _ IH]; intros run; simpl; [done|].
  by rewrite Hc, IH, reverse_cons, <- app_assoc.
Qed.

Lemma findall_run_no_word cls m : Forall (λ c, cls c = false) m → findall_run cls [] m = [].
Proof. induction 1 as [|c m Hc _ IH]; simpl; [done|]. by rewrite Hc, IH. Qed.

(** The words found hold the characters of the run and those characters of
    the text that are of the class. *)
Lemma findall_run_Forall (P : N → Prop) cls text : ∀ run,
  Forall P run → Forall (λ c, cls c = true → P c) text →
  Forall (Forall P) (findall_run cls run text).
Proof.
  induction text as [|c text IH]; intros run Hrun Htext; simpl.
  - destruct run; constructor; [|constructor]. by apply Forall_reverse.
  - apply Forall_cons in Htext as [Hc Htext]. destruct (cls c) eqn:Hcls.
    + apply IH; [constructor; auto | done].
    + apply Forall_app. split; [|apply IH; [constructor | done]].
      destruct run; constructor; [|constructor]. by apply Forall_reverse.
Qed.

Lemma findall_run_nonempty cls text : ∀ run,
  Forall (λ w, w ≠ []) (findall_run cls run text).
Proof.
  assert (Hemit : ∀ run, Forall (λ w : list N, w ≠ []) (emit run)).
  { intros [|c run]; constructor; [|constructor].
    rewrite reverse_cons. by destruct (reverse run). }
  induction text as [|c text IH]; intros run; simpl; [apply Hemit|].
  destruct (cls c); [apply IH|]. apply Forall_app. split; [apply Hemit | apply IH].
Qed.

Lemma lower_char_nonempty c : lower_char c ≠ [].
Proof. unfold lower_char. by repeat case_match. Qed.

Lemma lower_nonempty w : w ≠ [] → lower w ≠ [].
Proof.
  destruct w as [|c w]; [done|]. intros _. unfold lower. rewrite bind_cons.
  pose proof (lower_char_nonempty c). by destruct (lower_char c).
Qed.

Lemma lower_char_no_capital c : Forall (λ d, is_ascii_upper d = false) (lower_char c).
Proof.
  unfold lower_char.
  destruct (is_ascii_upper c) eqn:Hu; [|destruct (c =? 304)%N; [|destruct (c =? 8490)%N]];
    repeat constructor; try done.
  char_arith.
Qed.

Lemma lower_char_plain c :
  word_char c = true → ascii_char c → Forall (λ d, plain_char d = true) (lower_char c).
Proof.
  intros Hw Ha. unfold lower_char.
  destruct (is_ascii_upper c) eqn:Hu; [|destruct (c =? 304)%N eqn:H1;
    [|destruct (c =? 8490)%N eqn:H2]]; repeat constructor; char_arith.
Qed.

Lemma lower_char_of_plain c : plain_char c = true → word_char c = true ∧ lower_char c = [c].
Proof. intros H. split; char_arith. Qed.

Lemma lower_of_plain w : Forall (λ c, plain_char c = true) w → lower w = w.
Proof.
  unfold lower. induction 1 as [|c w Hc _ IH]; [done|].
  rewrite bind_cons, IH. by destruct (lower_char_of_plain c Hc) as [_ ->].
Qed.

Lemma tokenize_word w :
  Forall (λ c, word_char c = true) w → w ≠ [] → _tokenize_words w = {[ lower w ]}.
Proof.
  intros Hw Hne. unfold _tokenize_words, findall.
  rewrite findall_run_word, app_nil_r by done.
  destruct (reverse w) as [|c r] eqn:Hr.
  - apply (f_equal reverse) in Hr. by rewrite reverse_involutive in Hr.
  - simpl. rewrite <- Hr, reverse_involutive. apply (right_id_L ∅ (∪)).
Qed.

Lemma token_plain message t :
  Forall ascii_char message → t ∈ _tokenize_words message →
  Forall (λ c, plain_char c = true) t.
Proof.
  intros Hm. unfold _tokenize_words. rewrite elem_of_list_to_set, list_elem_of_fmap.
  intros (w & -> & Hw). unfold lower. apply Forall_bind.
  assert (Hall : Forall (Forall (λ c, word_char c = true ∧ ascii_char c))
                   (findall_run word_char [] message)).
  { apply findall_run_Forall; [constructor|].
    eapply Forall_impl; [exact Hm|]. by intros c Hc Hw'. }
  rewrite Forall_forall in Hall. specialize (Hall w Hw).
  eapply Forall_impl; [exact Hall|]. intros c [? ?]. by apply lower_char_plain.
Qed.

Lemma token_nonempty message t : t ∈ _tokenize_words message → t ≠ [].
Proof.
  unfold _tokenize_words. rewrite elem_of_list_to_set, list_elem_of_fmap.
  intros (w & -> & Hw). apply lower_nonempty.
  pose proof (findall_run_nonempty word_char message []) as Hall.
  rewrite Forall_forall in Hall. by apply Hall.
Qed.

(** X1: a token is never empty and never holds an ASCII capital letter; in
    ASCII text every character of a token is a small letter, a digit or an
    apostrophe. *)
Theorem token_shape (message t : list N) :
  t ∈ _tokenize_words message →
  t ≠ []
  ∧ Forall (λ c, is_ascii_upper c = false) t
  ∧ (Forall ascii_char message → Forall (λ c, plain_char c = true) t).
Proof.
  intros Ht. split; [by apply (token_nonempty message)|].
  split; [|intros Hm; by apply (token_plain message)].
  revert Ht. unfold _tokenize_words. rewrite elem_of_list_to_set, list_elem_of_fmap.
  intros (w & -> & _). unfold lower. apply Forall_bind, Forall_forall.
  intros c _. apply lower_char_no_capital.
Qed.

(** X2: a character outside the class cuts the text in two: the tokens of
    [a ++ sep :: b] are those of [a] together with those of [b]. *)
Theorem tokenize_separator (a b : list N) (sep : N) :
  word_char sep = false →
  _tokenize_words (a ++ sep :: b) = _tokenize_words a ∪ _tokenize_words b.
Proof.
  intros Hsep. unfold _tokenize_words, findall.
  by rewrite findall_run_separator, fmap_app, list_to_set_app_L.
Qed.

(** X3: a non-empty text made of word characters only is one token, its
    lower case; a text with no word character has no token. *)
Theorem tokenize_single_word (text : list N) :
  (Forall (λ c, word_char c = true) text → text ≠ [] →
     _tokenize_words text = {[ lower text ]})
  ∧ (Forall (λ c, word_char c = false) text → _tokenize_words text = ∅).
Proof.
  split; [apply tokenize_word|].
  intros H. unfold _tokenize_words, findall. by rewrite findall_run_no_word.
Qed.

(** X4: in ASCII text a token is a fixed point of the tokenizer: tokenizing
    the token gives back that token alone. *)
Theorem tokenize_token (message t : list N) :
  Forall ascii_char message → t ∈ _tokenize_words message →
  _tokenize_words t = {[ t ]}.
Proof.
  intros Hm Ht. pose proof (token_plain _ _ Hm Ht) as Hp.
  rewrite tokenize_word.
  - by rewrite lower_of_plain.
  - eapply Forall_impl; [exact Hp|]. intros c Hc. by apply lower_char_of_plain.
  - by apply (token_nonempty message).
Qed.

End TokenizerFurther.

(** ** Training, further *)

Section TrainingFurther.

Lemma class_size_cons b m l :
  class_size b (m :: l) = (if decide (m.1 = b) then 1 else 0) + class_size b l.
Proof.
  unfold class_size. rewrite filter_cons. case_decide; simpl length; lia.
Qed.

Lemma occurrences_cons b w m l :
  occurrences b w (m :: l) =
    (if decide (m.1 = b ∧ w ∈ _tokenize_words m.2) then 1 else 0) + occurrences b w l.
Proof.
  unfold occurrences. rewrite filter_cons. case_decide; simpl length; lia.
Qed.

Lemma occurrences_cons_message b w b0 t l :
  occurrences b w ((b0, t) :: l) =
    (if decide (w ∈ _tokenize_words t) then if decide (b0 = b) then 1 else 0 else 0)
    + occurrences b w l.
Proof.
  rewrite occurrences_cons. simpl.
  destruct (decide (w ∈ _tokenize_words t)), (decide (b0 = b));
    [rewrite decide_True by done | rewrite decide_False by tauto ..]; done.
Qed.

Lemma occurrences_nonneg b w l : 0 ≤ occurrences b w l.
Proof. unfold occurrences. lia. Qed.

Lemma occurrences_le_class_size b w l : occurrences b w l ≤ class_size b l.
Proof.
  induction l as [|m l IH]; [done|].
  rewrite occurrences_cons, class_size_cons.
  destruct (decide (m.1 = b ∧ _)) as [[? _]|_], (decide (m.1 = b)); try done; lia.
Qed.

Lemma fold_messages_totals s l :
  _number_of_spam_messages (fold_messages s l)
    = _number_of_spam_messages s + class_size true l
  ∧ _number_of_non_spam_messages (fold_messages s l)
    = _number_of_non_spam_messages s + class_size false l.
Proof.
  revert s. induction l as [|[b t] l IH]; intros s.
  - unfold class_size; simpl. lia.
  - change (fold_messages s ((b, t) :: l)) with (fold_messages (add_message s (b, t)) l).
    destruct (IH (add_message s (b, t))) as [-> ->].
    rewrite !class_size_cons. destruct b; simpl; repeat case_decide; try done; lia.
Qed.

Lemma class_size_total l : class_size true l + class_size false l = Z.of_nat (length l).
Proof.
  induction l as [|[b t] l IH]; [done|].
  rewrite !class_size_cons. simpl length.
  destruct b; simpl; repeat case_decide; try done; lia.
Qed.

(** The tallies of a word after a batch: the tallies before plus the number of
    messages of each class that hold the word. *)
Lemma fold_messages_count s l w :
  _words_count (fold_messages s l) !! w =
    if decide (occurrences true w l + occurrences false w l = 0)
    then _words_count s !! w
    else Some ((default (0, 0) (_words_count s !! w)).1 + occurrences true w l,
               (default (0, 0) (_words_count s !! w)).2 + occurrences false w l).
Proof.
  revert s. induction l as [|[b t] l IH]; intros s.
  - unfold occurrences; simpl. done.
  - change (fold_messages s ((b, t) :: l)) with (fold_messages (add_message s (b, t)) l).
    rewrite IH, add_message_count, !occurrences_cons_message.
    pose proof (occurrences_nonneg true w l). pose proof (occurrences_nonneg false w l).
    destruct (decide (w ∈ _tokenize_words t)) as [Hin|Hin],
      (_words_count s !! w) as [[sc nc]|]; unfold bump;
      destruct b; simpl; repeat case_decide; simpl;
      try done; try lia; f_equal; f_equal; lia.
Qed.

(** When a denominator is zero the loop of [_recalculate_probabilities] raises
    at the first word, if there is one. *)
Lemma recalculate_fold_zero (ns nn : Z) (wc : gmap (list N) (Z * Z)) wp :
  1 + ns = 0 ∨ 1 + nn = 0 →
  map_fold (recalculate_word ns nn) (Some wp) wc = if decide (wc = ∅) then Some wp else None.
Proof.
  intros Hz.
  pose (P := λ (r : option (gmap (list N) (Q * Q))) (m : gmap (list N) (Z * Z)),
               r = if decide (m = ∅) then Some wp else None).
  apply (map_fold_weak_ind P); unfold P; clear P.
  - by rewrite decide_True.
  - intros w c m r _ ->. rewrite (decide_False (P := <[w:=c]> m = ∅))
      by apply insert_non_empty.
    unfold recalculate_word. case_decide; [|done]. simpl.
    unfold float_div_int. destruct Hz as [Hz|Hz].
    + by rewrite (decide_True (P := 1 + ns = 0)).
    + rewrite (decide_True (P := 1 + nn = 0)) by done. by case_decide.
Qed.

(** C2: a call of [train] on a model with non-negative totals (every model a
    program can hold is one) returns a model in which the whole batch is
    folded in: each class total has grown by the number of messages of the
    class in the batch, each tally by the number of messages of the class
    that hold the word (an uncounted word starting from [(0, 0)]), and a word
    that no message of the batch holds keeps the entry it had; every word
    counted before is still counted; and every counted word, old or new, has
    the probabilities [(0.5 + spam_count) / (1 + total_spam)] and
    [(0.5 + non_spam_count) / (1 + total_non_spam)] of the new tallies and the
    new totals. *)
Theorem train_recomputes_probabilities (s : SpamFilter) (messages : list (bool * list N)) :
  0 ≤ _number_of_spam_messages s → 0 ≤ _number_of_non_spam_messages s →
  ∃ s', train s messages = Some s'
    ∧ _number_of_spam_messages s' = _number_of_spam_messages s + class_size true messages
    ∧ _number_of_non_spam_messages s'
      = _number_of_non_spam_messages s + class_size false messages
    ∧ (∀ w, _words_count s' !! w =
         if decide (occurrences true w messages + occurrences false w messages = 0)
         then _words_count s !! w
         else Some ((default (0, 0) (_words_count s !! w)).1 + occurrences true w messages,
                    (default (0, 0) (_words_count s !! w)).2 + occurrences false w messages))
    ∧ dom (_words_count s) ⊆ dom (_words_count s')
    ∧ ∀ w sc nc, _words_count s' !! w = Some (sc, nc) →
        _words_probabilities s' !! w =
          Some ((((1 # 2) + inject_Z sc) / inject_Z (1 + _number_of_spam_messages s'))%Q,
                (((1 # 2) + inject_Z nc) / inject_Z (1 + _number_of_non_spam_messages s'))%Q).
Proof.
  intros Hs Hn. eexists. split; [by apply train_ok|]. simpl.
  destruct (fold_messages_totals s messages) as [Ht1 Ht2].
  split; [exact Ht1|]. split; [exact Ht2|].
  split; [intros w; apply fold_messages_count|].
  split; [apply fold_messages_dom|].
  intros w sc nc Hw. rewrite lookup_union, lookup_fmap, Hw; simpl.
  by destruct (_words_probabilities s !! w).
Qed.

(** X5: a call of [train] adds to each class total the number of messages of
    that class in the batch, so the two totals grow by the length of the batch
    together. *)
Theorem train_totals (s : SpamFilter) (messages : list (bool * list N)) :
  0 ≤ _number_of_spam_messages s → 0 ≤ _number_of_non_spam_messages s →
  ∃ s', train s messages = Some s'
    ∧ _number_of_spam_messages s' = _number_of_spam_messages s + class_size true messages
    ∧ _number_of_non_spam_messages s'
      = _number_of_non_spam_messages s + class_size false messages
    ∧ _number_of_spam_messages s' + _number_of_non_spam_messages s'
      = _number_of_spam_messages s + _number_of_non_spam_messages s
        + Z.of_nat (length messages).
Proof.
  intros Hs Hn. eexists. split; [by apply train_ok|]. simpl.
  destruct (fold_messages_totals s messages) as [-> ->].
  pose proof (class_size_total messages). repeat split; lia.
Qed.

(** X6: a call of [train] adds to the spam tally of a word the number of spam
    messages of the batch that hold it, however often each holds it, and to
    its non-spam tally the number of non-spam messages that hold it; a word
    that no message of the batch holds keeps its entry, or its absence. *)
Theorem train_counts_presence (s : SpamFilter) (messages : list (bool * list N)) (w : list N) :
  0 ≤ _number_of_spam_messages s → 0 ≤ _number_of_non_spam_messages s →
  ∃ s', train s messages = Some s'
    ∧ _words_count s' !! w =
        if decide (occurrences true w messages + occurrences false w messages = 0)
        then _words_count s !! w
        else Some ((default (0, 0) (_words_count s !! w)).1 + occurrences true w messages,
                   (default (0, 0) (_words_count s !! w)).2 + occurrences false w messages).
Proof.
  intros Hs Hn. eexists. split; [by apply train_ok|]. simpl.
  apply fold_messages_count.
Qed.

(** X7: training never lowers a number: the totals do not decrease, and a
    word counted before the call is counted after it with tallies at least as
    large. *)
Theorem train_monotone (s : SpamFilter) (messages : list (bool * list N))
    (w : list N) (sc nc : Z) :
  0 ≤ _number_of_spam_messages s → 0 ≤ _number_of_non_spam_messages s →
  _words_count s !! w = Some (sc, nc) →
  ∃ s' sc' nc', train s messages = Some s'
    ∧ _number_of_spam_messages s ≤ _number_of_spam_messages s'
    ∧ _number_of_non_spam_messages s ≤ _number_of_non_spam_messages s'
    ∧ _words_count s' !! w = Some (sc', nc') ∧ sc ≤ sc' ∧ nc ≤ nc'.
Proof.
  intros Hs Hn Hw.
  pose proof (occurrences_nonneg true w messages).
  pose proof (occurrences_nonneg false w messages).
  destruct (fold_messages_totals s messages) as [Ht1 Ht2].
  assert (0 ≤ class_size true messages ∧ 0 ≤ class_size false messages) as [? ?]
    by (unfold class_size; lia).
  pose proof (fold_messages_count s messages w) as Hc. rewrite Hw in Hc. simpl in Hc.
  case_decide.
  - eexists _, sc, nc. split; [by apply train_ok|]. simpl. rewrite Ht1, Ht2, Hc.
    repeat split; lia.
  - eexists _, _, _. split; [by apply train_ok|]. simpl. rewrite Ht1, Ht2, Hc.
    repeat split; lia.
Qed.

(** X8: training on an empty batch changes nothing in a model obtained by
    training (or new): [train] returns the model it was given. *)
Theorem train_empty_batch (s : SpamFilter) : reachable s → train s [] = Some s.
Proof.
  intros (Hs & _ & Hc)%reachable_invariant. rewrite train_ok by done. simpl.
  destruct s as [ns nn wc wp]. unfold probabilities_current in Hc. simpl in *.
  f_equal. f_equal. rewrite Hc. apply union_fmap_absorb. by rewrite dom_fmap_L.
Qed.

(** X9: [_recalculate_probabilities] touches neither the counters nor the
    totals, and running it a second time changes nothing, on any state. *)
Theorem recalculate_idempotent (s s' : SpamFilter) :
  _recalculate_probabilities s = Some s' →
  _number_of_spam_messages s' = _number_of_spam_messages s
  ∧ _number_of_non_spam_messages s' = _number_of_non_spam_messages s
  ∧ _words_count s' = _words_count s
  ∧ _recalculate_probabilities s' = Some s'.
Proof.
  unfold _recalculate_probabilities.
  destruct (decide (1 + _number_of_spam_messages s = 0
                    ∨ 1 + _number_of_non_spam_messages s = 0)) as [Hz|Hnz].
  - rewrite recalculate_fold_zero by done. case_decide as He; [|done].
    simpl. intros [= <-]. simpl. rewrite recalculate_fold_zero by done.
    by rewrite decide_True.
  - rewrite recalculate_fold by tauto. simpl. intros [= <-]. simpl.
    rewrite recalculate_fold by tauto. simpl. repeat split.
    do 2 f_equal. apply map_eq; intros w. rewrite !lookup_union, lookup_fmap.
    by destruct (_words_count s !! w), (_words_probabilities s !! w).
Qed.

End TrainingFurther.

Lemma train_recomputes_probabilities_witness :
  0 ≤ _number_of_spam_messages trained ∧ 0 ≤ _number_of_non_spam_messages trained
  ∧ _words_count trained !! str "money" = Some (1, 0)
  ∧ occurrences true (str "money") repeated + occurrences false (str "money") repeated = 0
  ∧ ∃ s', train trained repeated = Some s'
    ∧ _number_of_spam_messages s'
      = _number_of_spam_messages trained + class_size true repeated
    ∧ _number_of_non_spam_messages s'
      = _number_of_non_spam_messages trained + class_size false repeated
    ∧ (∀ w, _words_count s' !! w =
         if decide (occurrences true w repeated + occurrences false w repeated = 0)
         then _words_count trained !! w
         else Some ((default (0, 0) (_words_count trained !! w)).1
                      + occurrences true w repeated,
                    (default (0, 0) (_words_count trained !! w)).2
                      + occurrences false w repeated))
    ∧ dom (_words_count trained) ⊆ dom (_words_count s')
    ∧ ∀ w sc nc, _words_count s' !! w = Some (sc, nc) →
        _words_probabilities s' !! w =
          Some ((((1 # 2) + inject_Z sc) / inject_Z (1 + _number_of_spam_messages s'))%Q,
                (((1 # 2) + inject_Z nc) / inject_Z (1 + _number_of_non_spam_messages s'))%Q).
Proof.
  split; [vm_compute; discriminate|]. split; [vm_compute; discriminate|].
  split; [vm_compute; reflexivity|]. split; [vm_compute; reflexivity|].
  apply (train_recomputes_probabilities trained repeated); vm_compute; discriminate.
Defined.

Lemma train_totals_witness :
  0 ≤ _number_of_spam_messages init ∧ 0 ≤ _number_of_non_spam_messages init
  ∧ ∃ s', train init scenario = Some s'
    ∧ _number_of_spam_messages s' = _number_of_spam_messages init + class_size true scenario
    ∧ _number_of_non_spam_messages s'
      = _number_of_non_spam_messages init + class_size false scenario
    ∧ _number_of_spam_messages s' + _number_of_non_spam_messages s'
      = _number_of_spam_messages init + _number_of_non_spam_messages init
        + Z.of_nat (length scenario).
Proof.
  split; [simpl; lia|]. split; [simpl; lia|].
  apply (train_totals init scenario); simpl; lia.
Defined.

Lemma train_counts_presence_witness :
  0 ≤ _number_of_spam_messages init ∧ 0 ≤ _number_of_non_spam_messages init
  ∧ occurrences true (str "win") repeated = 2
  ∧ ∃ s', train init repeated = Some s'
    ∧ _words_count s' !! str "win" =
        if decide (occurrences true (str "win") repeated
                   + occurrences false (str "win") repeated = 0)
        then _words_count init !! str "win"
        else Some ((default (0, 0) (_words_count init !! str "win")).1
                     + occurrences true (str "win") repeated,
                   (default (0, 0) (_words_count init !! str "win")).2
                     + occurrences false (str "win") repeated).
Proof.
  split; [simpl; lia|]. split; [simpl; lia|]. split; [vm_compute; reflexivity|].
  apply (train_counts_presence init repeated (str "win")); simpl; lia.
Defined.

Lemma train_monotone_witness :
  0 ≤ _number_of_spam_messages trained ∧ 0 ≤ _number_of_non_spam_messages trained
  ∧ _words_count trained !! str "win" = Some (1, 0)
  ∧ ∃ s' sc' nc', train trained repeated = Some s'
    ∧ _number_of_spam_messages trained ≤ _number_of_spam_messages s'
    ∧ _number_of_non_spam_messages trained ≤ _number_of_non_spam_messages s'
    ∧ _words_count s' !! str "win" = Some (sc', nc') ∧ 1 ≤ sc' ∧ 0 ≤ nc'.
Proof.
  split; [vm_compute; discriminate|]. split; [vm_compute; discriminate|].
  split; [vm_compute; reflexivity|].
  apply (train_monotone trained repeated (str "win") 1 0);
    [vm_compute; discriminate | vm_compute; discriminate | vm_compute; reflexivity].
Defined.

Lemma train_empty_batch_witness : reachable trained ∧ train trained [] = Some trained.
Proof. split; [exact trained_reachable | apply (train_empty_batch trained), trained_reachable]. Defined.

Lemma recalculate_idempotent_witness :
  _recalculate_probabilities (fold_messages init scenario) = Some trained
  ∧ _number_of_spam_messages trained = _number_of_spam_messages (fold_messages init scenario)
  ∧ _number_of_non_spam_messages trained
    = _number_of_non_spam_messages (fold_messages init scenario)
  ∧ _words_count trained = _words_count (fold_messages init scenario)
  ∧ _recalculate_probabilities trained = Some trained.
Proof.
  split; [vm_compute; reflexivity|].
  apply (recalculate_idempotent (fold_messages init scenario) trained).
  vm_compute; reflexivity.
Defined.

(** ** Inference, further *)

Section InferenceFurther.

(** The quotient that ends [probability_spam], as a function of the two
    accumulators. *)
Lemma exp_ratio_between a b :
  (0 < exp a / (exp a + exp b) ∧ exp a / (exp a + exp b) < 1)%R.
Proof.
  pose proof (exp_pos a) as Ha. pose proof (exp_pos b) as Hb.
  assert (Hs : (0 < exp a + exp b)%R) by Lra.lra.
  split.
  - by apply Rdiv_lt_0_compat.
  - apply (Rmult_lt_reg_r (exp a + exp b)); [done|].
    unfold Rdiv. rewrite Rmult_assoc, Rinv_l by Lra.lra. Lra.lra.
Qed.

(** The loop of [probability_spam] asks of the message only which words of
    the mapping it holds. *)
Lemma score_fold_ext words1 words2 (l : list (list N * (Q * Q))) acc :
  Forall (λ e, e.1 ∈ words1 ↔ e.1 ∈ words2) l →
  foldr (uncurry (score_word words1)) acc l = foldr (uncurry (score_word words2)) acc l.
Proof.
  induction 1 as [|[w [p q]] l Hw _ IH]; [done|]. simpl in *. rewrite IH. clear IH.
  unfold score_word.
  destruct (foldr _ _ l) as [[a b]|]; [|done]. simpl.
  destruct (decide (w ∈ words1)), (decide (w ∈ words2)); try done; tauto.
Qed.

Lemma add_message_mirror s b t :
  add_message (mirror s) (negb b, t) = mirror (add_message s (b, t)).
Proof.
  assert (Hwc : _words_count (add_message (mirror s) (negb b, t))
                = _words_count (mirror (add_message s (b, t)))).
  { assert (Hm : ∀ x, _words_count (mirror x) = prod_swap <$> _words_count x) by done.
    apply map_eq; intros w.
    rewrite add_message_count, !Hm, !lookup_fmap, add_message_count.
    case_decide; [|done].
    destruct (_words_count s !! w) as [[sc nc]|]; destruct b; done. }
  unfold add_message in *. cbn [_words_count] in Hwc. rewrite Hwc.
  unfold mirror; simpl. by destruct b.
Qed.

Lemma fold_messages_mirror l : ∀ s,
  fold_messages (mirror s) (flip_labels l) = mirror (fold_messages s l).
Proof.
  induction l as [|[b t] l IH]; intros s; [done|].
  unfold fold_messages, flip_labels in *. rewrite fmap_cons. cbn [foldl fst snd].
  by rewrite add_message_mirror, IH.
Qed.

(** Training the mirrored model on the flipped batch gives the mirror of the
    trained model. *)
Lemma train_mirror s l :
  totals_nonneg s → train (mirror s) (flip_labels l) = mirror <$> train s l.
Proof.
  intros Hs. assert (Hm : totals_nonneg (mirror s)) by (destruct Hs; by split).
  rewrite (train_ok s l Hs), (train_ok (mirror s) _ Hm). simpl.
  rewrite fold_messages_mirror. unfold mirror. simpl. do 2 f_equal.
  rewrite map_fmap_union, <- !map_fmap_compose. f_equal.
Qed.

Lemma probability_spam_reachable s message :
  reachable s → probability_spam s message = Some (classify_spec s message).
Proof.
  intros [r Hr]%(probability_spam_total s message).
  by rewrite Hr, (probability_spam_Some _ _ _ Hr).
Qed.


(** X12: the answer depends on the message only through the words of the
    Word Probabilities mapping it holds: two messages that hold the same words
    of the mapping get the same answer, whatever other words they hold. *)
Theorem probability_spam_unknown_words (s : SpamFilter) (message1 message2 : list N) :
  (∀ w, w ∈ dom (_words_probabilities s) →
        (w ∈ _tokenize_words message1 ↔ w ∈ _tokenize_words message2)) →
  probability_spam s message1 = probability_spam s message2.
Proof.
  intros H. unfold probability_spam.
  destruct (float_div_int _ _) as [q1|]; [|done]. cbn [mbind option_bind].
  destruct (math_log q1) as [a0|]; [|done]. cbn [mbind option_bind].
  destruct (float_div_int _ _) as [q2|]; [|done]. cbn [mbind option_bind].
  destruct (math_log q2) as [b0|]; [|done]. cbn [mbind option_bind].
  rewrite !map_fold_foldr.
  rewrite (score_fold_ext (_tokenize_words message1) (_tokenize_words message2)); [done|].
  apply Forall_forall. intros [w p] Hin%elem_of_map_to_list. simpl.
  apply H, elem_of_dom. by eexists.
Qed.

(** X13: the two classes are treated alike by training: a new model trained
    on the batch with every label turned over is the model trained on the
    batch itself with the two classes exchanged: the totals, the two tallies of
    every word and the two stored probabilities of every word are swapped. *)
Theorem train_flip_labels (messages : list (bool * list N)) :
  ∃ s1 s2,
    train init messages = Some s1
    ∧ train init (flip_labels messages) = Some s2
    ∧ _number_of_spam_messages s2 = _number_of_non_spam_messages s1
    ∧ _number_of_non_spam_messages s2 = _number_of_spam_messages s1
    ∧ (∀ w, _words_count s2 !! w = prod_swap <$> _words_count s1 !! w)
    ∧ (∀ w, _words_probabilities s2 !! w = prod_swap <$> _words_probabilities s1 !! w).
Proof.
  assert (H0 : totals_nonneg init) by done.
  destruct (train init messages) as [s1|] eqn:H1;
    [|by rewrite train_ok in H1].
  pose proof (train_mirror init messages H0) as H2. rewrite H1 in H2.
  change (mirror init) with init in H2. simpl in H2.
  exists s1, (mirror s1). repeat split; try done.
  - intros w. unfold mirror; simpl. by rewrite lookup_fmap.
  - intros w. unfold mirror; simpl. by rewrite lookup_fmap.
Qed.

End InferenceFurther.



(** ** The train/test split, further *)

Section SplitFurther.

Context {A G : Type} (randint : G → Z * G).

Lemma draws_length n : ∀ g, length (draws randint n g).1 = n.
Proof.
  induction n as [|n IH]; intros g; simpl; [done|].
  destruct (randint g) as [r g']. specialize (IH g').
  destruct (draws randint n g') as [rs g'']. simpl in *. by rewrite IH.
Qed.

Lemma draws_add n1 n2 : ∀ g,
  draws randint (n1 + n2) g =
    ((draws randint n1 g).1 ++ (draws randint n2 (draws randint n1 g).2).1,
     (draws randint n2 (draws randint n1 g).2).2).
Proof.
  induction n1 as [|n1 IH]; intros g; simpl.
  - by destruct (draws randint n2 g).
  - destruct (randint g) as [r g']. rewrite IH.
    by destruct (draws randint n1 g') as [rs g''].
Qed.

Lemma pick_app (m1 m2 : list bool) (d1 d2 : list A) :
  length m1 = length d1 → pick (m1 ++ m2) (d1 ++ d2) = pick m1 d1 ++ pick m2 d2.
Proof.
  revert d1. induction m1 as [|b m1 IH]; intros [|x d1] Hlen; simpl in *; try done.
  destruct b; simpl; rewrite IH by lia; done.
Qed.

(** The loop draws one number per row and sends the row to the test list when
    the number is at most [k]. *)
Lemma split_loop_draws k (d : list A) : ∀ st,
  foldl (split_row randint k) st d =
    let rs := draws randint (length d) (rng st) in
    {| data := data st;
       train_data := train_data st ++ pick (negb <$> ((λ r, r <=? k) <$> rs.1)) d;
       test_data := test_data st ++ pick ((λ r, r <=? k) <$> rs.1) d;
       rng := rs.2 |}.
Proof.
  induction d as [|row d IH]; intros st; simpl.
  - destruct st. simpl. by rewrite !app_nil_r.
  - rewrite IH. unfold split_row. destruct (randint (rng st)) as [r g].
    destruct (r <=? k) eqn:Hr; simpl; destruct (draws randint (length d) g) as [rs g'];
      simpl; rewrite Hr; simpl; by rewrite <- !app_assoc.
Qed.

Lemma int_of_float_bounds t :
  ((1 # 10) < t)%Q → (t < (99 # 100))%Q → 10 ≤ int_of_float (t * 100) ≤ 98.
Proof.
  destruct t as [n d]. unfold Qlt, int_of_float. simpl. intros H1 H2.
  rewrite Pos.mul_1_r.
  assert (Hd : 0 < Z.pos d) by lia.
  split.
  - apply Z.quot_le_lower_bound; lia.
  - change 98 with (Z.pred 99). apply Z.lt_le_pred.
    apply Z.quot_lt_upper_bound; lia.
Qed.


(** X15: with a valid [test_size], the number the draws are compared with
    lies between 10 and 98. *)
Theorem split_threshold_bounds (test_size : Q) :
  ((1 # 10) < test_size)%Q → (test_size < (99 # 100))%Q →
  test_size_ok test_size = true ∧ 10 ≤ int_of_float (test_size * 100) ≤ 98.
Proof.
  intros H1 H2. split; [by apply test_size_ok_spec | by apply int_of_float_bounds].
Qed.

(** X16: splitting a list made of two parts is splitting the first part, then
    the second with the random source left by the first: the training lists
    and the test lists are joined in that order. *)
Theorem split_app (d1 d2 : list A) (test_size : Q) (g : G) :
  ((1 # 10) < test_size)%Q → (test_size < (99 # 100))%Q →
  ∃ st1 st2,
    split_run randint d1 test_size g = Some st1
    ∧ split_run randint d2 test_size (rng st1) = Some st2
    ∧ split_train_test randint (d1 ++ d2) test_size g
      = Some (train_data st1 ++ train_data st2, test_data st1 ++ test_data st2).
Proof.
  intros H1 H2.
  assert (Hok : test_size_ok test_size = true) by (by apply test_size_ok_spec).
  unfold split_train_test, split_run. rewrite Hok. simpl.
  eexists _, _. split; [done|]. split; [done|].
  rewrite !split_loop_draws. simpl.
  rewrite length_app, draws_add. simpl.
  rewrite !fmap_app, !pick_app; [done|..];
    by rewrite ?length_fmap, draws_length.
Qed.

End SplitFurther.


Lemma split_threshold_bounds_witness :
  ((1 # 10) < 2 # 5)%Q ∧ ((2 # 5) < 99 # 100)%Q
  ∧ int_of_float ((2 # 5) * 100) = 40
  ∧ test_size_ok (2 # 5) = true ∧ 10 ≤ int_of_float ((2 # 5) * 100) ≤ 98.
Proof.
  split; [reflexivity|]. split; [reflexivity|]. split; [reflexivity|].
  apply (split_threshold_bounds (2 # 5)); reflexivity.
Defined.

Lemma split_app_witness :
  ((1 # 10) < 2 # 5)%Q ∧ ((2 # 5) < 99 # 100)%Q
  ∧ ∃ st1 st2,
      split_run lcg_randint [1; 2; 3]%nat (2 # 5) 42 = Some st1
      ∧ split_run lcg_randint [4; 5]%nat (2 # 5) (rng st1) = Some st2
      ∧ split_train_test lcg_randint ([1; 2; 3] ++ [4; 5])%nat (2 # 5) 42
        = Some (train_data st1 ++ train_data st2, test_data st1 ++ test_data st2).
Proof.
  split; [reflexivity|]. split; [reflexivity|].
  apply (split_app lcg_randint [1; 2; 3]%nat [4; 5]%nat (2 # 5) 42); reflexivity.
Defined.

(** ** The script *)

Section ScriptTheorems.

Context {G : Type} (randint : G → Z * G).

Lemma split_tab_spec line :
  match split_tab line with
  | (first, Some after) => line = first ++ tab :: after ∧ tab ∉ first
  | (first, None) => line = first ∧ tab ∉ line
  end.
Proof.
  induction line as [|c line IH]; simpl.
  - split; [done|]. apply not_elem_of_nil.
  - destruct (N.eqb_spec c tab) as [->|Hc].
    + split; [done|]. apply not_elem_of_nil.
    + destruct (split_tab line) as [first [after|]].
      * destruct IH as [-> Hf]. split; [done|].
        rewrite not_elem_of_cons. by split.
      * destruct IH as [-> Hf]. split; [done|].
        rewrite not_elem_of_cons. by split.
Qed.

Lemma split_tab_first category message :
  tab ∉ category → split_tab (category ++ tab :: message) = (category, Some message).
Proof.
  induction category as [|c category IH]; simpl; intros Hc.
  - done.
  - apply not_elem_of_cons in Hc as [Hc Hcat].
    destruct (N.eqb_spec c tab) as [->|_]; [done|]. by rewrite IH.
Qed.

Lemma parse_line_None line : parse_line line = None ↔ tab ∉ line.
Proof.
  unfold parse_line. pose proof (split_tab_spec line) as H.
  destruct (split_tab line) as [first [after|]].
  - destruct H as [-> _]. split; [done|]. intros Hn. exfalso. apply Hn.
    rewrite elem_of_app, elem_of_cons. auto.
  - by destruct H.
Qed.

(** X17: a line is read as the text before its first tab, compared with
    "spam", and everything after that tab, further tabs and the line end
    included; a line without a tab makes the unpacking fail. *)
Theorem parse_line_first_tab (line : list N) :
  (∀ category message, tab ∉ category → line = category ++ tab :: message →
     parse_line line = Some (bool_decide (category = str "spam"), message))
  ∧ (parse_line line = None ↔ tab ∉ line).
Proof.
  split; [|apply parse_line_None].
  intros category message Hc ->. unfold parse_line. by rewrite split_tab_first.
Qed.

(** X18: the file is read whole or not at all: the reading fails exactly when
    some line has no tab, and otherwise gives one labelled message per line,
    in the order of the lines. *)
Theorem read_messages_all_or_nothing (lines : list (list N)) :
  (read_messages lines = None ↔ Exists (λ line, tab ∉ line) lines)
  ∧ (∀ messages, read_messages lines = Some messages →
       length messages = length lines
       ∧ ∀ i line, lines !! i = Some line → parse_line line = messages !! i).
Proof.
  unfold read_messages. split.
  - rewrite mapM_None.
    split; intros H; (eapply Exists_impl; [exact H|]); intros line; apply parse_line_None.
  - intros messages Hm%mapM_Some. split; [symmetry; by eapply Forall2_length|].
    intros i line Hi. destruct (Forall2_lookup_l _ _ _ _ _ Hm Hi) as (m & Hmi & Hp).
    by rewrite Hmi.
Qed.

(** The tallies after the loop, from any tallies before it. *)
Lemma tally_fold s test : reachable s → ∀ st0,
  ∃ st, foldl (tally s) (Some st0) test = Some st
    ∧ true_positive st + false_negative st
      = true_positive st0 + false_negative st0 + class_size true test
    ∧ false_positive st + true_negative st
      = false_positive st0 + true_negative st0 + class_size false test
    ∧ true_positive st0 ≤ true_positive st ∧ false_positive st0 ≤ false_positive st
    ∧ true_negative st0 ≤ true_negative st ∧ false_negative st0 ≤ false_negative st.
Proof.
  intros Hr. induction test as [|[b t] test IH]; intros st0.
  - exists st0. unfold class_size; simpl. repeat split; lia.
  - cbn [foldl]. unfold tally at 2. cbn [mbind option_bind].
    destruct (probability_spam_total s t Hr) as [p ->]. cbn [mbind option_bind].
    rewrite !class_size_cons. cbn [fst].
    destruct (Rlt_dec (1 / 2) p), b;
      match goal with |- context [foldl _ (Some ?st1) _] =>
        destruct (IH st1) as (st & -> & H1 & H2 & H3 & H4 & H5 & H6) end;
      exists st; simpl in *; repeat case_decide; try done; repeat split; lia.
Qed.

Lemma tally_fold_None s test : foldl (tally s) None test = None.
Proof. induction test as [|row test IH]; [done|]. apply IH. Qed.

(** The tallies after the loop, whenever it ends without an error. *)
Lemma tally_fold_Some s test : ∀ st0 st,
  foldl (tally s) (Some st0) test = Some st →
  true_positive st + false_negative st
    = true_positive st0 + false_negative st0 + class_size true test
  ∧ false_positive st + true_negative st
    = false_positive st0 + true_negative st0 + class_size false test
  ∧ true_positive st0 ≤ true_positive st ∧ false_positive st0 ≤ false_positive st
  ∧ true_negative st0 ≤ true_negative st ∧ false_negative st0 ≤ false_negative st.
Proof.
  induction test as [|[b t] test IH]; intros st0 st.
  - intros [= <-]. unfold class_size; simpl. repeat split; lia.
  - cbn [foldl]. unfold tally at 2. cbn [mbind option_bind].
    destruct (probability_spam s t) as [p|]; cbn [mbind option_bind];
      [|by rewrite tally_fold_None].
    rewrite !class_size_cons. cbn [fst].
    destruct (Rlt_dec (1 / 2) p), b; intros (H1 & H2 & H3 & H4 & H5 & H6)%IH;
      simpl in *; repeat case_decide; try done; repeat split; lia.
Qed.

(** X19: whenever the evaluation loop ends without an error, on any model,
    each test row has been tallied once under its own label: true positives
    and false negatives add up to the spam rows, false positives and true
    negatives to the other rows, the four tallies to the number of rows, and no
    tally is negative. *)
Theorem evaluate_tallies (s : SpamFilter) (test : list (bool * list N)) (st : stats) :
  evaluate s test = Some st →
  true_positive st + false_negative st = class_size true test
  ∧ false_positive st + true_negative st = class_size false test
  ∧ true_positive st + false_positive st + true_negative st + false_negative st
    = Z.of_nat (length test)
  ∧ 0 ≤ true_positive st ∧ 0 ≤ false_positive st
  ∧ 0 ≤ true_negative st ∧ 0 ≤ false_negative st.
Proof.
  intros (H1 & H2 & H3)%tally_fold_Some.
  pose proof (class_size_total test). simpl in *. repeat split; lia.
Qed.

Lemma evaluate_tallies_aux s test :
  reachable s →
  ∃ st, evaluate s test = Some st ∧ 0 ≤ true_positive st ∧ 0 ≤ false_positive st.
Proof.
  intros Hr. destruct (tally_fold s test Hr no_stats) as (st & H & _ & _ & H1 & H2 & _).
  exists st. simpl in *. by repeat split.
Qed.

Lemma precision_between st p :
  0 ≤ true_positive st → 0 ≤ false_positive st → precision st = Some p →
  0 < true_positive st + false_positive st ∧ (0 <= p)%Q ∧ (p <= 1)%Q.
Proof.
  unfold precision, int_div_int. intros Ht Hf. case_decide as Hd; [done|].
  intros [= <-]. split; [lia|].
  assert (H0 : (inject_Z 0 <= inject_Z (true_positive st))%Q) by (by rewrite <- Zle_Qle).
  assert (H1 : (inject_Z (true_positive st)
                <= inject_Z (true_positive st + false_positive st))%Q)
    by (rewrite <- Zle_Qle; lia).
  assert (H2 : (inject_Z 0 < inject_Z (true_positive st + false_positive st))%Q)
    by (rewrite <- Zlt_Qlt; lia).
  change (inject_Z 0) with 0%Q in *.
  split.
  - apply Qle_shift_div_l; [done | Lqa.lra].
  - apply Qle_shift_div_r; [done | Lqa.lra].
Qed.

(** X20: the precision is not defined when no test row was predicted spam
    (the division raises), and only then; on the tallies of an evaluation it
    is otherwise a number between 0 and 1. *)
Theorem precision_defined (st : stats) :
  (precision st = None ↔ true_positive st + false_positive st = 0)
  ∧ (∀ s test p, reachable s → evaluate s test = Some st → precision st = Some p →
       (0 <= p)%Q ∧ (p <= 1)%Q).
Proof.
  split.
  - unfold precision, int_div_int. by case_decide.
  - intros s test p Hr He Hp.
    destruct (evaluate_tallies_aux s test Hr) as (st' & He' & Ht & Hf).
    rewrite He in He'. injection He' as <-.
    by destruct (precision_between st p Ht Hf Hp) as (_ & ? & ?).
Qed.

(** X21: a line without a tab makes the script fail.  Whenever the script
    ends well, every line had a tab, each message went to the training rows or
    to the test rows, a new model was trained on the training rows, every test
    row was tallied, at least one test row was predicted spam, and the
    precision reported is true positives over predicted positives, between 0
    and 1. *)
Theorem main_outcome (lines : list (list N)) (g : G) :
  (read_messages lines = None → main randint lines g = None)
  ∧ (∀ st p, main randint lines g = Some (st, p) →
       ∃ messages train_set test_set s,
         read_messages lines = Some messages
         ∧ split_train_test randint messages (1 # 5) g = Some (train_set, test_set)
         ∧ (length train_set + length test_set = length lines)%nat
         ∧ train init train_set = Some s
         ∧ evaluate s test_set = Some st
         ∧ true_positive st + false_positive st + true_negative st + false_negative st
           = Z.of_nat (length test_set)
         ∧ 0 < true_positive st + false_positive st
         ∧ p = (inject_Z (true_positive st)
                / inject_Z (true_positive st + false_positive st))%Q
         ∧ (0 <= p)%Q ∧ (p <= 1)%Q).
Proof.
  unfold main. split; [by intros ->|]. intros st p.
  destruct (read_messages lines) as [messages|] eqn:Hread; [|done].
  cbn [mbind option_bind].
  destruct (split_run_mask randint messages (1 # 5) g eq_refl)
    as (l & mask & Hrun & Hlen & _ & Htr & Hte).
  assert (Hsplit : split_train_test randint messages (1 # 5) g
                   = Some (train_data l, test_data l))
    by (unfold split_train_test; by rewrite Hrun).
  rewrite Hsplit. cbn [mbind option_bind].
  destruct (train init (train_data l)) as [s|] eqn:Htrain; [|done].
  cbn [mbind option_bind].
  destruct (evaluate s (test_data l)) as [st'|] eqn:Hev; [|done].
  cbn [mbind option_bind].
  destruct (precision st') as [p'|] eqn:Hp; [|done].
  cbn [mbind option_bind]. intros [= <- <-].
  pose proof (tally_fold_Some s (test_data l) no_stats st' Hev)
    as (H1 & H2 & H3 & H4 & _).
  destruct (precision_between st' p' H3 H4 Hp) as (Hpos & Hp0 & Hp1).
  exists messages, (train_data l), (test_data l), s.
  repeat split; try done.
  - apply mapM_Some, Forall2_length in Hread. rewrite Hread, <- length_app, Htr, Hte.
    apply Permutation_length, pick_partition, Hlen.
  - pose proof (class_size_total (test_data l)). simpl in *. lia.
  - revert Hp. unfold precision, int_div_int. case_decide; [done|]. by intros [= <-].
Qed.

End ScriptTheorems.

(** Witnesses at concrete inputs. *)

Lemma token_shape_witness :
  str "win" ∈ _tokenize_words (str "Win MONEY")
  ∧ str "win" ≠ []
  ∧ Forall (λ c, is_ascii_upper c = false) (str "win")
  ∧ (Forall ascii_char (str "Win MONEY") → Forall (λ c, plain_char c = true) (str "win")).
Proof.
  assert (H : str "win" ∈ _tokenize_words (str "Win MONEY")).
  { apply elem_of_list_to_set. vm_compute. apply list_elem_of_In. simpl. auto. }
  split; [exact H|]. apply (token_shape (str "Win MONEY") (str "win") H).
Defined.

Lemma tokenize_separator_witness :
  word_char 32%N = false
  ∧ _tokenize_words (str "free" ++ 32%N :: str "money")
    = _tokenize_words (str "free") ∪ _tokenize_words (str "money").
Proof.
  split; [reflexivity|].
  apply (tokenize_separator (str "free") (str "money") 32%N). reflexivity.
Defined.

Lemma tokenize_single_word_witness :
  Forall (λ c, word_char c = true) (str "Don't") ∧ str "Don't" ≠ []
  ∧ _tokenize_words (str "Don't") = {[ lower (str "Don't") ]}.
Proof.
  assert (H : Forall (λ c, word_char c = true) (str "Don't"))
    by (repeat constructor).
  split; [exact H|]. split; [discriminate|].
  apply (proj1 (tokenize_single_word (str "Don't")) H). discriminate.
Defined.

Lemma tokenize_token_witness :
  Forall ascii_char (str "Win MONEY")
  ∧ str "win" ∈ _tokenize_words (str "Win MONEY")
  ∧ _tokenize_words (str "win") = {[ str "win" ]}.
Proof.
  assert (Ha : Forall ascii_char (str "Win MONEY")) by (repeat constructor).
  assert (H : str "win" ∈ _tokenize_words (str "Win MONEY")).
  { apply elem_of_list_to_set. vm_compute. apply list_elem_of_In. simpl. auto. }
  split; [exact Ha|]. split; [exact H|].
  apply (tokenize_token (str "Win MONEY") (str "win") Ha H).
Defined.

Lemma probability_spam_unknown_words_witness :
  (∀ w, w ∈ dom (_words_probabilities trained) →
        (w ∈ _tokenize_words (str "win a prize") ↔ w ∈ _tokenize_words (str "win")))
  ∧ probability_spam trained (str "win a prize") = probability_spam trained (str "win").
Proof.
  assert (H : ∀ w, w ∈ dom (_words_probabilities trained) →
                (w ∈ _tokenize_words (str "win a prize") ↔ w ∈ _tokenize_words (str "win"))).
  { assert (Hd : dom (_words_probabilities trained)
                 = list_to_set [str "win"; str "money"; str "now"; str "meeting";
                                str "notes"; str "attached"])
      by (vm_compute; reflexivity).
    assert (H1 : _tokenize_words (str "win a prize")
                 = list_to_set [str "win"; str "a"; str "prize"])
      by (vm_compute; reflexivity).
    assert (H2 : _tokenize_words (str "win") = list_to_set [str "win"])
      by (vm_compute; reflexivity).
    intros w. rewrite Hd, H1, H2, !elem_of_list_to_set, !list_elem_of_In. simpl.
    intros [<-|[<-|[<-|[<-|[<-|[<-|[]]]]]]]; split; intros Hw;
      repeat (destruct Hw as [Hw|Hw]; [try discriminate Hw|]); auto; try done. }
  split; [exact H|].
  apply (probability_spam_unknown_words trained _ _ H).
Defined.


(** ** Case variants outside ASCII *)

Section OutsideAscii.

Lemma Q2R_pos q : (0 < q)%Q → (0 < Q2R q)%R.
Proof.
  intros H%Qlt_Rlt. replace (Q2R 0) with 0%R in H; [done|].
  unfold Q2R. simpl. Lra.lra.
Qed.

Lemma exp_ln_Q2R q : (0 < q)%Q → exp (ln (Q2R q)) = Q2R q.
Proof. intros H. apply exp_ln. by apply Q2R_pos. Qed.

(** The model trained on the one spam message "i" answers 9/11 for a message
    that holds the word "i" and 3/5 for a message that does not. *)
Lemma classify_spec_trained_i message :
  classify_spec trained_i message =
    if bool_decide (str "i" ∈ _tokenize_words message) then (9 / 11)%R else (3 / 5)%R.
Proof.
  unfold classify_spec, spam_acc, non_spam_acc, log_prior_spam, log_prior_non_spam.
  assert (Hl : map_to_list (_words_probabilities trained_i)
               = [(str "i", ((3 # 4)%Q, (1 # 2)%Q))]) by (vm_compute; reflexivity).
  assert (Hs : _number_of_spam_messages trained_i = 1) by (vm_compute; reflexivity).
  assert (Hn : _number_of_non_spam_messages trained_i = 0) by (vm_compute; reflexivity).
  rewrite Hl, Hs, Hn. cbn [fmap list_fmap sum_R foldr].
  unfold spam_evidence, non_spam_evidence, evidence. cbn [fst snd].
  change (half_plus 1 / inject_Z (1 + 1 + 0))%Q with (3 # 4)%Q.
  change (half_plus 0 / inject_Z (1 + 1 + 0))%Q with (1 # 4)%Q.
  rewrite !Rplus_0_r.
  destruct (bool_decide (str "i" ∈ _tokenize_words message)).
  - rewrite !exp_plus, !exp_ln_Q2R by reflexivity.
    unfold Q2R. simpl. field.
  - change (1 - (3 # 4))%Q with (1 # 4)%Q. change (1 - (1 # 2))%Q with (1 # 2)%Q.
    rewrite !exp_plus, !exp_ln_Q2R by reflexivity.
    unfold Q2R. simpl. field.
Qed.

Lemma trained_i_reachable : reachable trained_i.
Proof. apply (reachable_train init dotted); [constructor | vm_compute; reflexivity]. Qed.

Lemma probability_spam_trained_i message :
  probability_spam trained_i message =
    Some (if bool_decide (str "i" ∈ _tokenize_words message) then (9 / 11)%R else (3 / 5)%R).
Proof.
  rewrite (probability_spam_reachable _ _ trained_i_reachable).
  by rewrite classify_spec_trained_i.
Qed.

End OutsideAscii.

(** C9, as first stated, fails for case pairs outside ASCII.  On
    the model trained on the spam message "i": the text "İ" (U+0130) and its
    lower case get different answers, and so do "I" and "ı" (U+0131, whose
    upper case is "I"). *)
Lemma case_insensitive_counterexample :
  _tokenize_words [304%N] = {[ [105%N; 775%N] ]}
  ∧ _tokenize_words (lower [304%N]) = {[ str "i" ]}
  ∧ probability_spam trained_i [304%N] ≠ probability_spam trained_i (lower [304%N])
  ∧ _tokenize_words (str "I") = {[ str "i" ]}
  ∧ _tokenize_words [305%N] = {[ [305%N] ]}
  ∧ probability_spam trained_i (str "I") ≠ probability_spam trained_i [305%N].
Proof.
  repeat split; try (vm_compute; reflexivity);
    rewrite !probability_spam_trained_i;
    repeat match goal with
      | |- context [bool_decide ?P] =>
          let E := fresh "E" in
          destruct (bool_decide P) eqn:E; vm_compute in E; try discriminate E
      end;
    intros [= H]; Lra.lra.
Qed.

Lemma evaluate_tallies_witness :
  evaluate trained_i [(true, str "i"); (false, str "you")]
    = Some {| true_positive := 1; false_positive := 1;
              true_negative := 0; false_negative := 0 |}
  ∧ 1 + 0 = class_size true [(true, str "i"); (false, str "you")]
  ∧ 1 + 0 = class_size false [(true, str "i"); (false, str "you")]
  ∧ 1 + 1 + 0 + 0 = Z.of_nat (length [(true, str "i"); (false, str "you")])
  ∧ 0 ≤ 1 ∧ 0 ≤ 1 ∧ 0 ≤ 0 ∧ 0 ≤ 0.
Proof.
  assert (H : evaluate trained_i [(true, str "i"); (false, str "you")]
              = Some {| true_positive := 1; false_positive := 1;
                        true_negative := 0; false_negative := 0 |}).
  { unfold evaluate. cbn [foldl]. unfold tally. cbn [mbind option_bind].
    rewrite !probability_spam_trained_i.
    repeat match goal with
      | |- context [bool_decide ?P] =>
          let E := fresh "E" in
          destruct (bool_decide P) eqn:E; vm_compute in E; try discriminate E
      end.
    cbn [mbind option_bind].
    destruct (Rlt_dec (1 / 2) (9 / 11)) as [_|Hn]; [|exfalso; apply Hn; Lra.lra].
    destruct (Rlt_dec (1 / 2) (3 / 5)) as [_|Hn]; [|exfalso; apply Hn; Lra.lra].
    reflexivity. }
  split; [exact H|].
  apply (evaluate_tallies trained_i [(true, str "i"); (false, str "you")] _ H).
Defined.
